(** * idb-sideloader: the asset-resolution engine

    A shallow embedding of the two implementations of [IndexedCache] found in
    the repository:

    - [Eager] follows [src/index.ts] at the repository root of the sources
      (one IndexedDB connection opened by [init], kept in [this.db]);
    - [Lazy] follows the class built on [createStore] (one transaction per
      operation, the connection promise [dbp] opened by the constructor).

    Promises are modelled by their final state ([Settled]); the persistent
    store is a finite map from keys to stored records; the network, the clock
    and the faults of the store are an explicit environment [Env]; every
    operation threads the browser state [World] and appends to a trace of
    observable events. *)

From Stdlib Require Import ZArith Lia Bool.
From stdpp Require Import base option strings list gmap.

Local Open Scope Z_scope.
Local Open Scope string_scope.

(** ** Data model *)

(** A [Blob] is an opaque binary payload. *)
Definition Blob := list Z.

(** [DBObj["data"]]: every field is optional in the source type. *)
Record Data := mkData {
  d_key    : option string;
  d_blob   : option Blob;
  d_hash   : option string;
  d_expiry : option Z        (* a [Date] as milliseconds; [None] is null *)
}.

(** [data: {}] of a freshly scanned descriptor. *)
Definition emptyData : Data := mkData None None None None.

(** [DBObj]: elements are named by their position in the document. *)
Record DBObj := mkObj {
  el      : nat;
  key     : string;
  src     : string;
  hash    : string;
  isAsync : bool;
  expiry  : option Z;
  data    : Data
}.

(** [{ ...obj, data }] *)
Definition withData (obj : DBObj) (d : Data) : DBObj :=
  mkObj (el obj) (key obj) (src obj) (hash obj) (isAsync obj) (expiry obj) d.

(** The values a promise is rejected with. *)
Inductive Err :=
| ErrEmpty                (* new Error("") *)
| ErrMsg (msg : string)   (* new Error(msg) with a message *)
| ErrDOM                  (* req.error, a DOMException *)
| ErrNet                  (* fetch() rejected *)
| ErrBody                 (* r.blob() rejected *)
| ErrType.                (* TypeError *)

(** The final state of a promise; [Pending] is a promise that is never
    settled. *)
Inductive Settled (A : Type) :=
| Fulfilled (a : A)
| Rejected (e : Err)
| Pending.
Arguments Fulfilled {A} a.
Arguments Rejected {A} e.
Arguments Pending {A}.

(** Observable events. *)
Inductive Event :=
| EvOpen                      (* indexedDB.open *)
| EvFetch (url : string)      (* fetch(url) *)
| EvGet (k : string)          (* store.get(k) *)
| EvPut (k : string)          (* store.put(..) under k *)
| EvDelete (k : string)       (* store.delete(k) *)
| EvKeys                      (* store.getAllKeys() *)
| EvLog.                      (* console.log *)

(** What [fetch(url)] does: it rejects, or yields a response with its [ok]
    flag and its body; a body [None] is a body whose [blob()] rejects. *)
Inductive FetchResult :=
| FetchReject
| FetchResp (ok : bool) (body : option Blob).

(** The environment of a run: the clock, the network and the faults of the
    store. [open_ok] tells whether [indexedDB.open] succeeds; [tx_throws]
    makes [db.transaction(..)] throw; the [*_err] fields make the request
    (or its transaction) end in [onerror]. *)
Record Env := mkEnv {
  now       : Z;
  net       : string -> FetchResult;
  open_ok   : bool;
  tx_throws : bool;
  get_err   : string -> bool;
  put_err   : string -> bool;
  del_err   : string -> bool;
  keys_err  : bool
}.

(** The browser state a resolution acts on. *)
Record World := mkWorld {
  store : gmap string Data;
  trace : list Event
}.

Definition emit (e : Event) (w : World) : World :=
  mkWorld (store w) (trace w ++ [e]).

Definition setStore (s : gmap string Data) (w : World) : World :=
  mkWorld s (trace w).

(** JavaScript truthiness of a string: only the empty string is falsy. *)
Definition truthy (s : string) : bool :=
  match s with EmptyString => false | _ => true end.

Definition otruthy (s : option string) : bool :=
  match s with Some s => truthy s | None => false end.

(** [data.hash !== obj.hash] *)
Definition hash_differs (d : Data) (obj : DBObj) : bool :=
  match d_hash d with
  | Some h => negb (String.eqb h (hash obj))
  | None => true
  end.

(** [data.expiry && new Date() > new Date(data.expiry)] *)
Definition expired (E : Env) (d : Data) : bool :=
  match d_expiry d with
  | Some e => Z.ltb e (now E)
  | None => false
  end.

(** [e.toString() !== "Error"] *)
Definition has_message (e : Err) : bool :=
  match e with ErrEmpty => false | _ => true end.

(** The record built by [_fetchObject] and by the last branch of
    [_getObject]. *)
Definition dataOf (obj : DBObj) (b : option Blob) : Data :=
  mkData (Some (key obj)) b (Some (hash obj)) (expiry obj).

Definition is_fetch (e : Event) : bool :=
  match e with EvFetch _ => true | _ => false end.

Definition count_fetches (t : list Event) : nat :=
  length (List.filter is_fetch t).

(** ** The lookup map of [prune]

    [keys.reduce((obj, v) => { obj[v] = true; return obj }, {})] builds a
    plain object: besides the keys written to it, membership ([k in keyMap])
    and truthy lookup ([keyMap[k]]) also see the properties the object
    inherits from [Object.prototype]. *)
Definition object_prototype : list string :=
  [ "constructor"; "hasOwnProperty"; "isPrototypeOf"; "propertyIsEnumerable";
    "toLocaleString"; "toString"; "valueOf"; "__proto__";
    "__defineGetter__"; "__defineSetter__"; "__lookupGetter__";
    "__lookupSetter__" ].

Definition mem (k : string) (l : list string) : bool :=
  existsb (String.eqb k) l.

Definition keyMap_of (keys : list string) : gset string :=
  foldl (fun obj v => {[ v ]} ∪ obj) ∅ keys.

(** [k in keyMap], and equally the truthiness of [keyMap[k]]. *)
Definition in_keyMap (keyMap : gset string) (k : string) : bool :=
  bool_decide (k ∈ keyMap) || mem k object_prototype.

(** The keys [getAllKeys()] yields. *)
Definition storedKeys (s : gmap string Data) : list string :=
  (map_to_list s).*1.

(** ** The eager-connection implementation *)
Module Eager.

(** [_store()] yields [undefined] without a connection, throws when the
    transaction cannot be created, and an object store otherwise. *)
Inductive StoreHandle := NoStore | StoreThrows | StoreOk.

Definition _store (E : Env) (db : bool) : StoreHandle :=
  if negb db then NoStore
  else if tx_throws E then StoreThrows
  else StoreOk.

(** [deleteKey(key)]; [None] is an exception thrown to the caller. The
    delete request has no handlers: a failing request leaves the store as
    it is. [store.delete(undefined)] throws. *)
Definition deleteKey (E : Env) (db : bool) (k : option string) (w : World)
  : option World :=
  if negb db then Some w
  else match _store E db with
       | NoStore => Some w
       | StoreThrows => None
       | StoreOk =>
           match k with
           | None => None
           | Some k =>
               let w1 := emit (EvDelete k) w in
               Some (if del_err E k then w1
                     else setStore (delete k (store w1)) w1)
           end
       end.

(** [_getDBblob(obj)]. The checks run in the [onsuccess] handler of the
    request; were [deleteKey] to throw there, the handler would end before
    its [reject] and the promise would stay unsettled. *)
Definition _getDBblob (E : Env) (db : bool) (obj : DBObj) (w : World)
  : Settled Data * World :=
  match _store E db with
  | NoStore => (Rejected (ErrMsg ("DB Key Not Found: " ++ key obj)), w)
  | StoreThrows => (Rejected ErrDOM, w)
  | StoreOk =>
      let w1 := emit (EvGet (key obj)) w in
      if get_err E (key obj) then (Rejected ErrDOM, w1)
      else match store w1 !! key obj with
           | None => (Rejected ErrEmpty, w1)
           | Some d =>
               if truthy (hash obj) && hash_differs d obj
               then (Rejected ErrEmpty, w1)
               else if expired E d
               then match deleteKey E db (d_key d) w1 with
                    | Some w2 => (Rejected ErrEmpty, w2)
                    | None => (Pending, w1)
                    end
               else (Fulfilled d, w1)
           end
  end.

(** [r.blob().then(..)] is neither returned nor given a rejection handler:
    when the body cannot be read the promise of [_fetchObject] is never
    settled. *)
Definition _fetchObject (E : Env) (db : bool) (obj : DBObj) (w : World)
  : Settled Data * World :=
  let w1 := emit (EvFetch (src obj)) w in
  match net E (src obj) with
  | FetchReject => (Rejected ErrNet, w1)
  | FetchResp false _ => (Rejected (ErrMsg "error fetching asset"), w1)
  | FetchResp true None => (Pending, w1)
  | FetchResp true (Some b) =>
      let d := dataOf obj (Some b) in
      match _store E db with
      | NoStore => (Rejected (ErrMsg ("DB Key Not Found: " ++ key obj)), w1)
      | StoreThrows => (Rejected ErrDOM, w1)
      | StoreOk =>
          let w2 := emit (EvPut (key obj)) w1 in
          if put_err E (key obj) then (Rejected ErrDOM, w2)
          else (Fulfilled d, setStore (<[ key obj := d ]> (store w2)) w2)
      end
  end.

(** [_getObject(obj)]: the stored record, else the fetched one, else the
    record without payload. *)
Definition _getObject (E : Env) (db : bool) (obj : DBObj) (w : World)
  : Settled DBObj * World :=
  match _getDBblob E db obj w with
  | (Fulfilled d, w1) => (Fulfilled (withData obj d), w1)
  | (Pending, w1) => (Pending, w1)
  | (Rejected e, w1) =>
      let w2 := if has_message e then emit EvLog w1 else w1 in
      match _fetchObject E db obj w2 with
      | (Fulfilled d, w3) => (Fulfilled (withData obj d), w3)
      | (Rejected _, w3) => (Fulfilled (withData obj (dataOf obj None)), w3)
      | (Pending, w3) => (Pending, w3)
      end
  end.

(** The body of the [forEach] in the [onsuccess] handler of [_prune]. *)
Definition prune_step (E : Env) (db : bool) (keyMap : gset string)
  (w : World) (k : string) : World :=
  if in_keyMap keyMap k then w
  else match deleteKey E db (Some k) w with
       | Some w' => w'
       | None => w
       end.

(** [_prune(keys)]; [None] is an exception thrown to the caller. *)
Definition _prune (E : Env) (db : bool) (keys : list string) (w : World)
  : option World :=
  if negb db then Some w
  else
    let keyMap := keyMap_of keys in
    match _store E db with
    | NoStore => None
    | StoreThrows => None
    | StoreOk =>
        let w1 := emit EvKeys w in
        if keys_err E then Some w1
        else Some (foldl (prune_step E db keyMap) w1 (storedKeys (store w1)))
    end.

End Eager.

(** ** The lazy, transaction-per-operation implementation *)
Module Lazy.

(** [createStore] opens the database once; [dbp_ok] tells whether that
    promise is fulfilled. [customStore(txMode, callback)] runs the callback
    in a fresh transaction. *)
Definition usable (E : Env) (dbp_ok : bool) : bool :=
  dbp_ok && negb (tx_throws E).

Definition deleteKey (E : Env) (dbp_ok : bool) (k : option string) (w : World)
  : Settled unit * World :=
  if negb (usable E dbp_ok) then (Rejected ErrDOM, w)
  else match k with
       | None => (Rejected ErrType, w)
       | Some k =>
           let w1 := emit (EvDelete k) w in
           if del_err E k then (Rejected ErrDOM, w1)
           else (Fulfilled tt, setStore (delete k (store w1)) w1)
       end.

Definition get (E : Env) (dbp_ok : bool) (k : string) (w : World)
  : Settled (option Data) * World :=
  if negb (usable E dbp_ok) then (Rejected ErrDOM, w)
  else let w1 := emit (EvGet k) w in
       if get_err E k then (Rejected ErrDOM, w1)
       else (Fulfilled (store w1 !! k), w1).

Definition set (E : Env) (dbp_ok : bool) (k : string) (d : Data) (w : World)
  : Settled unit * World :=
  if negb (usable E dbp_ok) then (Rejected ErrDOM, w)
  else let w1 := emit (EvPut k) w in
       if put_err E k then (Rejected ErrDOM, w1)
       else (Fulfilled tt, setStore (<[ k := d ]> (store w1)) w1).

Definition getDBblob (E : Env) (dbp_ok : bool) (obj : DBObj) (w : World)
  : Settled Data * World :=
  match get E dbp_ok (key obj) w with
  | (Rejected e, w1) => (Rejected e, w1)
  | (Pending, w1) => (Pending, w1)
  | (Fulfilled None, w1) => (Rejected ErrEmpty, w1)
  | (Fulfilled (Some d), w1) =>
      if negb (otruthy (d_key d)) then (Rejected ErrEmpty, w1)
      else if truthy (hash obj) && hash_differs d obj
      then (Rejected ErrEmpty, w1)
      else if expired E d
      then (Rejected ErrEmpty, snd (deleteKey E dbp_ok (d_key d) w1))
      else (Fulfilled d, w1)
  end.

Definition fetchObject (E : Env) (dbp_ok : bool) (obj : DBObj) (w : World)
  : Settled Data * World :=
  let w1 := emit (EvFetch (src obj)) w in
  match net E (src obj) with
  | FetchReject => (Rejected ErrNet, w1)
  | FetchResp false _ => (Rejected (ErrMsg "error fetching asset"), w1)
  | FetchResp true None => (Rejected ErrBody, w1)
  | FetchResp true (Some b) =>
      let d := dataOf obj (Some b) in
      match set E dbp_ok (key obj) d w1 with
      | (Fulfilled _, w2) => (Fulfilled d, w2)
      | (Rejected e, w2) => (Rejected e, w2)
      | (Pending, w2) => (Pending, w2)
      end
  end.

Definition getObject (E : Env) (dbp_ok : bool) (obj : DBObj) (w : World)
  : Settled DBObj * World :=
  match getDBblob E dbp_ok obj w with
  | (Fulfilled d, w1) => (Fulfilled (withData obj d), w1)
  | (Pending, w1) => (Pending, w1)
  | (Rejected e, w1) =>
      let w2 := if has_message e then emit EvLog w1 else w1 in
      match fetchObject E dbp_ok obj w2 with
      | (Fulfilled d, w3) => (Fulfilled (withData obj d), w3)
      | (Rejected _, w3) => (Fulfilled (withData obj (dataOf obj None)), w3)
      | (Pending, w3) => (Pending, w3)
      end
  end.

(** [#keys()] *)
Definition keys (E : Env) (dbp_ok : bool) (w : World)
  : Settled (list string) * World :=
  if negb (usable E dbp_ok) then (Rejected ErrDOM, w)
  else let w1 := emit EvKeys w in
       if keys_err E then (Rejected ErrDOM, w1)
       else (Fulfilled (storedKeys (store w1)), w1).

(** [#delMany(keys)]: every delete runs in one transaction, which either
    completes or is rolled back as a whole. *)
Definition delMany (E : Env) (dbp_ok : bool) (ks : list string) (w : World)
  : Settled unit * World :=
  if negb (usable E dbp_ok) then (Rejected ErrDOM, w)
  else let w1 := foldl (fun w k => emit (EvDelete k) w) w ks in
       if existsb (del_err E) ks then (Rejected ErrDOM, w1)
       else (Fulfilled tt,
             setStore (foldl (fun s k => delete k s) (store w1) ks) w1).

Definition prune (E : Env) (dbp_ok : bool) (ks : list string) (w : World)
  : Settled unit * World :=
  let keyMap := keyMap_of ks in
  match keys E dbp_ok w with
  | (Rejected e, w1) => (Rejected e, w1)
  | (Pending, w1) => (Pending, w1)
  | (Fulfilled validKeys, w1) =>
      delMany E dbp_ok
        (List.filter (fun k => negb (in_keyMap keyMap k)) validKeys) w1
  end.

End Lazy.

(** ** The document and the applier *)

Inductive Tag := SCRIPT | IMG | LINK | OTHER.

Definition Tag_eqb (a b : Tag) : bool :=
  match a, b with
  | SCRIPT, SCRIPT | IMG, IMG | LINK, LINK | OTHER, OTHER => true
  | _, _ => false
  end.

(** The handler [() => applyElement(objs[n + 1], objs[n + 1].data.blob)]
    closes over the list [objs] and the index [n]. *)
Definition Handler : Type := list DBObj * nat.

(** An element: its [data-*] attributes, its loading attributes, the
    [data-indexed] mark, the payload its [src]/[href] points to once applied,
    and its [onload]/[onerror] handlers. *)
Record Elem := mkElem {
  tagName   : Tag;
  ds_key    : option string;
  ds_src    : string;
  ds_hash   : option string;
  ds_expiry : option Z;      (* parseInt of a non-empty data-expiry *)
  at_async  : bool;
  at_defer  : bool;
  at_lazy   : bool;
  indexed   : bool;
  url       : option Blob;
  onload    : option Handler;
  onerror   : option Handler
}.

(** The page: the document, the log of applications in the order they
    happen, and the elements whose [src]/[href] was assigned and whose
    load or error event has not fired yet. *)
Record Page := mkPage {
  doc     : list Elem;
  applied : list nat;
  loading : list nat
}.

Definition setUrl (b : Blob) (e : Elem) : Elem :=
  mkElem (tagName e) (ds_key e) (ds_src e) (ds_hash e) (ds_expiry e)
         (at_async e) (at_defer e) (at_lazy e) (indexed e) (Some b)
         (onload e) (onerror e).

Definition setIndexed (e : Elem) : Elem :=
  mkElem (tagName e) (ds_key e) (ds_src e) (ds_hash e) (ds_expiry e)
         (at_async e) (at_defer e) (at_lazy e) true (url e)
         (onload e) (onerror e).

Definition setHandlers (h : Handler) (e : Elem) : Elem :=
  mkElem (tagName e) (ds_key e) (ds_src e) (ds_hash e) (ds_expiry e)
         (at_async e) (at_defer e) (at_lazy e) (indexed e) (url e)
         (Some h) (Some h).

(** Whether the [switch (obj.el.tagName)] of [applyElement] has a case for
    the tag; [scripts] tells the two implementations apart. *)
Definition assigns (scripts : bool) (t : Tag) : bool :=
  match t with
  | SCRIPT => scripts
  | IMG | LINK => true
  | OTHER => false
  end.

Definition tag_of (d : list Elem) (i : nat) : Tag :=
  match d !! i with Some e => tagName e | None => OTHER end.

(** [applyElement(obj, blob)] *)
Definition applyElement (scripts : bool) (obj : DBObj) (blob : option Blob)
  (pg : Page) : Page :=
  match blob with
  | None => pg
  | Some b =>
      let i := el obj in
      let hit := assigns scripts (tag_of (doc pg) i) in
      let d1 := if hit then alter (setUrl b) i (doc pg) else doc pg in
      mkPage (alter setIndexed i d1)
             (applied pg ++ [i])
             (if hit then loading pg ++ [i] else loading pg)
  end.

(** The [forEach] of [applyElements]: element [n] gets the handler for
    [n + 1], except the last one. *)
Fixpoint chain (objs : list DBObj) (rest : list DBObj) (n : nat)
  (d : list Elem) : list Elem :=
  match rest with
  | [] => d
  | obj :: rest' =>
      if Nat.leb (length objs - 1) n then chain objs rest' (S n) d
      else chain objs rest' (S n) (alter (setHandlers (objs, n)) (el obj) d)
  end.

(** [applyElements(objs)]; [None] is the TypeError of [objs[0].data] on an
    empty list. *)
Definition applyElements (scripts : bool) (objs : list DBObj) (pg : Page)
  : option Page :=
  let pg1 := mkPage (chain objs objs 0 (doc pg)) (applied pg) (loading pg) in
  match objs !! 0%nat with
  | None => None
  | Some o => Some (applyElement scripts o (d_blob (data o)) pg1)
  end.

(** The load ([ok = true]) or error event of element [i]: its handler, when
    it has one, applies the next element of its chain. *)
Definition fire (scripts : bool) (ok : bool) (i : nat) (pg : Page) : Page :=
  match doc pg !! i with
  | None => pg
  | Some e =>
      match (if ok then onload e else onerror e) with
      | None => pg
      | Some (objs, n) =>
          match objs !! S n with
          | None => pg
          | Some o => applyElement scripts o (d_blob (data o)) pg
          end
      end
  end.

(** The browser delivers the pending load and error events; [loads i] tells
    whether element [i] loads or fails. *)
Fixpoint deliver (scripts : bool) (loads : nat -> bool) (fuel : nat)
  (pg : Page) : Page :=
  match fuel with
  | O => pg
  | S fuel' =>
      match loading pg with
      | [] => pg
      | i :: rest =>
          deliver scripts loads fuel'
            (fire scripts (loads i) i (mkPage (doc pg) (applied pg) rest))
      end
  end.

(** ** [allSettled]

    [Promise.all] over the wrapped promises keeps one slot per promise and
    resolves, with the slots in the order of the promises, when the last one
    is filled. *)
Inductive Wrapped :=
| WFulfilled (value : DBObj)
| WRejected (reason : Err).

(** The [reduce] of [setupElements]: the values of the fulfilled entries. *)
Definition values (rs : list Wrapped) : list DBObj :=
  omap (fun r => match r with WFulfilled v => Some v | WRejected _ => None end)
       rs.

Definition all_filled (slots : list (option Wrapped)) : option (list Wrapped) :=
  mapM id slots.

(** The ordered part of one pass while its resolutions settle: the slots of
    [Promise.all], and the page. *)
Record Gather := mkGather {
  slots : list (option Wrapped);
  page  : Page
}.

Definition start (n : nat) (pg : Page) : Gather :=
  mkGather (replicate n None) pg.

(** Promise number [i] settles with [r]. A promise settles once: a slot
    that is filled stays as it is. When the last slot is filled the [then]
    callback of [setupElements] runs [applyElements] on the values. *)
Definition settle (scripts : bool) (g : Gather) (ev : nat * Wrapped) : Gather :=
  match slots g !! ev.1 with
  | Some None =>
      let s := <[ ev.1 := Some ev.2 ]> (slots g) in
      match all_filled s with
      | None => mkGather s (page g)
      | Some rs =>
          mkGather s (default (page g)
                        (applyElements scripts (values rs) (page g)))
      end
  | _ => g
  end.

Definition settle_all (scripts : bool) (evs : list (nat * Wrapped)) (g : Gather)
  : Gather :=
  foldl (settle scripts) g evs.

(** ** Scanning the document *)

Record Opts := mkOpts {
  opt_tags   : list Tag;
  opt_prune  : bool;
  opt_skip   : bool;
  opt_expiry : option Z      (* minutes; [None] is null *)
}.

(** The defaults of the two constructors. *)
Definition eager_defaults : Opts :=
  mkOpts [SCRIPT; IMG; LINK] false false (Some 131400).
Definition lazy_defaults : Opts :=
  mkOpts [IMG; LINK] false false (Some 131400).

(** [a || b] on an optional attribute and a string. *)
Definition js_or (a : option string) (b : string) : string :=
  match a with
  | Some s => if truthy s then s else b
  | None => b
  end.

(** [`${t}[data-src]:not([data-indexed])`] for some [t] of [opt.tags]. *)
Definition selected (opt : Opts) (e : Elem) : bool :=
  existsb (Tag_eqb (tagName e)) (opt_tags opt) && negb (indexed e).

(** The elements a pass looks at: the ones given, or the result of
    [document.querySelectorAll(sel)] in document order. *)
Definition candidates (opt : Opts) (elements : option (list nat))
  (d : list Elem) : list nat :=
  match elements with
  | Some ids => ids
  | None =>
      List.filter (fun i => match d !! i with
                            | Some e => selected opt e
                            | None => false
                            end)
                  (seq 0 (length d))
  end.

(** [el.dataset.expiry || this.opt.expiry], then
    [new Date(new Date().getTime() + parseInt(exp) * 60000)]. *)
Definition expiry_of (E : Env) (opt : Opts) (e : Elem) : option Z :=
  let exp := match ds_expiry e with
             | Some m => Some m
             | None => match opt_expiry opt with
                       | Some m => if Z.eqb m 0 then None else Some m
                       | None => None
                       end
             end in
  match exp with
  | Some m => Some (Z.add (now E) (Z.mul m 60000))
  | None => None
  end.

(** The body of the [forEach] over the elements: an element that carries
    [data-indexed] is skipped. [async_of] is the [isAsync] expression. *)
Definition describe (async_of : Elem -> bool) (E : Env) (opt : Opts)
  (d : list Elem) (i : nat) : option DBObj :=
  match d !! i with
  | None => None
  | Some e =>
      if indexed e then None
      else Some (mkObj i (js_or (ds_key e) (ds_src e)) (ds_src e)
                       (js_or (ds_hash e) (ds_src e)) (async_of e)
                       (expiry_of E opt e) emptyData)
  end.

Definition scan (async_of : Elem -> bool) (E : Env) (opt : Opts)
  (elements : option (list nat)) (d : list Elem) : list DBObj :=
  omap (describe async_of E opt d) (candidates opt elements d).

(** The second [forEach] of [setupElements]: every descriptor is handed to
    [getObject]; an async one is applied when its own promise settles, the
    promise of an ordered one is collected. The resolutions are started in
    document order and the model runs each to its end before the next. *)
Fixpoint dispatch (getObject : DBObj -> World -> Settled DBObj * World)
  (scripts : bool) (objs : list DBObj) (w : World) (pg : Page)
  (promises : list (Settled DBObj))
  : World * Page * list (Settled DBObj) :=
  match objs with
  | [] => (w, pg, promises)
  | obj :: rest =>
      let (r, w1) := getObject obj w in
      if isAsync obj then
        let pg1 := match r with
                   | Fulfilled result =>
                       applyElement scripts obj (d_blob (data result)) pg
                   | Rejected _ => applyElement scripts obj None pg
                   | Pending => pg
                   end in
        dispatch getObject scripts rest w1 pg1 promises
      else dispatch getObject scripts rest w1 pg (promises ++ [r])
  end.

(** [allSettled(promises)]: [None] when some promise is never settled. *)
Definition wrap (r : Settled DBObj) : option Wrapped :=
  match r with
  | Fulfilled v => Some (WFulfilled v)
  | Rejected e => Some (WRejected e)
  | Pending => None
  end.

Definition allSettled (promises : list (Settled DBObj)) : option (list Wrapped) :=
  mapM wrap promises.

(** The end of [setupElements], from [promises.length === 0] on. *)
Definition gather (scripts : bool) (objs : list DBObj)
  (promises : list (Settled DBObj)) (w : World) (pg : Page)
  : Settled (option (list DBObj)) * World * Page :=
  match promises with
  | [] => (Fulfilled (Some objs), w, pg)
  | _ =>
      match allSettled promises with
      | None => (Pending, w, pg)
      | Some results =>
          match applyElements scripts (values results) pg with
          | None => (Rejected ErrType, w, pg)
          | Some pg1 => (Fulfilled (Some objs), w, pg1)
          end
      end
  end.

(** [!objs?.length] *)
Definition no_objs (objs : option (list DBObj)) : bool :=
  match objs with
  | None | Some [] => true
  | Some _ => false
  end.

Module EagerLoad.
Import Eager.

(** The engine: its options and whether [this.db] holds a connection. *)
Record Engine := mkEngine {
  opt : Opts;
  db  : bool
}.

(** [new IndexedCache(options)] *)
Definition construct (o : Opts) : Engine := mkEngine o false.

(** [init()]: [_initDB] rejects when the database cannot be opened (or the
    200 ms timer fires first). *)
Definition init (E : Env) (eng : Engine) (w : World) : Engine * World :=
  if db eng then (eng, w)
  else if opt_skip (opt eng) then (eng, w)
  else let w1 := emit EvOpen w in
       if open_ok E then (mkEngine (opt eng) true, w1)
       else (eng, emit EvLog w1).

Definition isAsync_of (e : Elem) : bool :=
  negb (Tag_eqb (tagName e) SCRIPT) || at_async e || at_defer e.

(** [_applyElement] has the cases SCRIPT, IMG and LINK. *)
Definition _applyElement : DBObj -> option Blob -> Page -> Page :=
  applyElement true.

Definition _applyElements : list DBObj -> Page -> option Page :=
  applyElements true.

Definition _setupElements (E : Env) (eng : Engine)
  (elements : option (list nat)) (w : World) (pg : Page)
  : Settled (option (list DBObj)) * World * Page :=
  let objs := scan isAsync_of E (opt eng) elements (doc pg) in
  if negb (db eng) then
    match _applyElements objs pg with
    | None => (Rejected ErrType, w, pg)
    | Some pg1 => (Fulfilled None, w, pg1)
    end
  else
    match dispatch (_getObject E (db eng)) true objs w pg [] with
    | (w1, pg1, promises) => gather true objs promises w1 pg1
    end.

Definition load (E : Env) (eng : Engine) (elements : option (list nat))
  (w : World) (pg : Page) : Settled unit * World * Page :=
  match _setupElements E eng elements w pg with
  | (Rejected e, w1, pg1) => (Rejected e, w1, pg1)
  | (Pending, w1, pg1) => (Pending, w1, pg1)
  | (Fulfilled objs, w1, pg1) =>
      if negb (db eng) || no_objs objs then (Fulfilled tt, w1, pg1)
      else if opt_prune (opt eng) then
        match _prune E (db eng) (List.map key (default [] objs)) w1 with
        | Some w2 => (Fulfilled tt, w2, pg1)
        | None => (Rejected ErrDOM, w1, pg1)
        end
      else (Fulfilled tt, w1, pg1)
  end.

End EagerLoad.

Module LazyLoad.
Import Lazy.

(** The engine: its options; its store is the promise [dbp] of
    [createStore], opened by the constructor whatever the options. *)
Record Engine := mkEngine {
  opt    : Opts;
  dbp_ok : bool
}.

Definition construct (E : Env) (o : Opts) (w : World) : Engine * World :=
  (mkEngine o (open_ok E), emit EvOpen w).

Definition isAsync_of (e : Elem) : bool :=
  at_async e || at_defer e || at_lazy e.

Definition setupElements (E : Env) (eng : Engine)
  (elements : option (list nat)) (w : World) (pg : Page)
  : Settled (option (list DBObj)) * World * Page :=
  let objs := scan isAsync_of E (opt eng) elements (doc pg) in
  match dispatch (getObject E (dbp_ok eng)) false objs w pg [] with
  | (w1, pg1, promises) => gather false objs promises w1 pg1
  end.

Definition load (E : Env) (eng : Engine) (elements : option (list nat))
  (w : World) (pg : Page) : Settled unit * World * Page :=
  match setupElements E eng elements w pg with
  | (Rejected e, w1, pg1) => (Rejected e, w1, pg1)
  | (Pending, w1, pg1) => (Pending, w1, pg1)
  | (Fulfilled objs, w1, pg1) =>
      if no_objs objs then (Fulfilled tt, w1, pg1)
      else if opt_prune (opt eng) then
        match Lazy.prune E (dbp_ok eng) (List.map key (default [] objs)) w1 with
        | (Fulfilled _, w2) => (Fulfilled tt, w2, pg1)
        | (Rejected e, w2) => (Rejected e, w2, pg1)
        | (Pending, w2) => (Pending, w2, pg1)
        end
      else (Fulfilled tt, w1, pg1)
  end.

End LazyLoad.

(** ** Vocabulary of the properties *)

(** The store holds the entry [d] under the key [k]; a stored entry records
    the key it was written under. *)
Definition stored_under (s : gmap string Data) (k : string) (d : Data) : Prop :=
  s !! k = Some d /\ d_key d = Some k.

(** The stored entry is valid for reuse by the descriptor: same hash, and
    an expiry that is null or not earlier than the current time. *)
Definition valid_for (E : Env) (obj : DBObj) (d : Data) : Prop :=
  d_hash d = Some (hash obj) /\
  match d_expiry d with
  | Some e => (now E <= e)%Z
  | None => True
  end.

(** The expiry of the stored entry has elapsed. *)
Definition elapsed (E : Env) (d : Data) : Prop :=
  match d_expiry d with
  | Some e => (e < now E)%Z
  | None => False
  end.

(** The stored entry is a miss for the descriptor: its hash differs or its
    expiry has elapsed. *)
Definition stale_for (E : Env) (obj : DBObj) (d : Data) : Prop :=
  d_hash d <> Some (hash obj) \/ elapsed E d.

(** The store answers lookups under [k]. *)
Definition reads_ok (E : Env) (k : string) : Prop :=
  tx_throws E = false /\ get_err E k = false.

(** The store accepts writes under [k]. *)
Definition writes_ok (E : Env) (k : string) : Prop :=
  tx_throws E = false /\ put_err E k = false.

(** Where the record of a fulfilled resolution comes from: the store, the
    network, or neither (the record without payload, whose key, hash and
    expiry are copied from the descriptor). *)
Inductive resolved_with (E : Env) (s : gmap string Data) (obj : DBObj)
  : Data -> Prop :=
| from_store d :
    s !! key obj = Some d -> resolved_with E s obj d
| from_network b :
    net E (src obj) = FetchResp true (Some b) ->
    resolved_with E s obj (dataOf obj (Some b))
| no_payload :
    resolved_with E s obj (dataOf obj None).

(** The state of the ordered part of a pass that started from the page
    [pg]: until the last slot is filled the page is [pg]; from then on it
    is the page [applyElements] made of it. *)
Definition gathered (scripts : bool) (pg : Page) (g : Gather) : Prop :=
  match all_filled (slots g) with
  | None => page g = pg
  | Some rs => page g = default pg (applyElements scripts (values rs) pg)
  end.

(** ** Scenarios *)

Definition empty_world : World := mkWorld ∅ [].

(** A network that serves every locator with the payload [b]. *)
Definition serving (b : Blob) : string -> FetchResult :=
  fun _ => FetchResp true (Some b).

(** An environment without store faults. *)
Definition healthy (t : Z) (n : string -> FetchResult) : Env :=
  mkEnv t n true false (fun _ => false) (fun _ => false) (fun _ => false) false.

(** A response whose status is a success and whose body cannot be read. *)
Definition broken_body : string -> FetchResult :=
  fun _ => FetchResp true None.

(** Every request is answered by a failure status. *)
Definition not_found : string -> FetchResult :=
  fun _ => FetchResp false None.

Definition obj_a : DBObj :=
  mkObj 0 "a" "a.png" "h1" true None emptyData.

(** The descriptor of [<img data-src="">]: key, locator and hash are the
    empty string. *)
Definition obj_blank : DBObj :=
  mkObj 0 "" "" "" true None emptyData.

(** A descriptor with the key ["a"] and an empty hash. *)
Definition obj_nohash : DBObj :=
  mkObj 0 "a" "" "" true None emptyData.

(** The world left by a first lazy resolution of [obj_blank] from an empty
    store, with a network that serves the payload [[1]]. *)
Definition blank_world : World :=
  snd (Lazy.getObject (healthy 0 (serving [1%Z])) true obj_blank empty_world).

(** A store that holds, under ["a"], a record written for the hash ["h0"]. *)
Definition world_h0 : World :=
  mkWorld {[ "a" := mkData (Some "a") (Some [7%Z]) (Some "h0") None ]} [].

(** Options with [skip] enabled, and options with [prune] enabled. *)
Definition skip_opts : Opts :=
  mkOpts [SCRIPT; IMG; LINK] false true (Some 131400).
Definition prune_opts : Opts := mkOpts [SCRIPT; IMG; LINK] true false None.

(** [<img data-src="a.png">], [<script data-src=s>] and a page made of the
    given elements. *)
Definition img (s : string) : Elem :=
  mkElem IMG None s None None false false false false None None None.

Definition script (s : string) : Elem :=
  mkElem SCRIPT None s None None false false false false None None None.

Definition page_of (d : list Elem) : Page := mkPage d [] [].

(** An environment in which the store cannot enumerate its keys, and one in
    which transactions cannot be created. *)
Definition keys_failing (n : string -> FetchResult) : Env :=
  mkEnv 0 n true false (fun _ => false) (fun _ => false) (fun _ => false) true.

Definition tx_failing (n : string -> FetchResult) : Env :=
  mkEnv 0 n true true (fun _ => false) (fun _ => false) (fun _ => false) false.

(** A store whose only key is ["toString"], and the store of the example
    of the specification: keys ["k1"], ["k2"], ["k3"]. *)
Definition rec_of (k : string) : Data :=
  mkData (Some k) (Some [1%Z]) (Some k) None.

Definition world_proto : World :=
  mkWorld {[ "toString" := rec_of "toString" ]} [].

Definition world_k123 : World :=
  mkWorld (<[ "k1" := rec_of "k1" ]> (<[ "k2" := rec_of "k2" ]>
             {[ "k3" := rec_of "k3" ]})) [].

(** Two scripts without [async] or [defer], and the two descriptors that
    resolution yields for them when each payload is found. *)
Definition two_scripts : Page := page_of [script "a.js"; script "b.js"].

Definition res_a : DBObj :=
  mkObj 0 "a.js" "a.js" "a.js" false None
        (mkData (Some "a.js") (Some [1%Z]) (Some "a.js") None).

Definition res_b : DBObj :=
  mkObj 1 "b.js" "b.js" "b.js" false None
        (mkData (Some "b.js") (Some [2%Z]) (Some "b.js") None).

(** A network that serves the locator [u] only. *)
Definition serving_only (u : string) (b : Blob) : string -> FetchResult :=
  fun s => if String.eqb s u then FetchResp true (Some b)
           else FetchResp false None.

Definition two_imgs : Page := page_of [img "a.png"; img "b.png"].

(** One pass over two ordered elements, the first of which the network does
    not serve. *)
Definition blocked_eager : Settled unit * World * Page :=
  EagerLoad.load (healthy 0 (serving_only "b.js" [2%Z]))
    (EagerLoad.mkEngine eager_defaults true) None empty_world two_scripts.

Definition blocked_lazy : Settled unit * World * Page :=
  LazyLoad.load (healthy 0 (serving_only "b.png" [2%Z]))
    (LazyLoad.mkEngine lazy_defaults true) None empty_world two_imgs.

(** An environment whose store rejects every write. *)
Definition put_failing (n : string -> FetchResult) : Env :=
  mkEnv 0 n true false (fun _ => false) (fun _ => true) (fun _ => false) false.

(** [load()] run to quiescence: the pass, then every pending load event. *)
Definition eager_pass (E : Env) (eng : EagerLoad.Engine) (st : World * Page)
  : World * Page :=
  match EagerLoad.load E eng None st.1 st.2 with
  | (_, w, pg) => (w, deliver true (fun _ => true) (S (length (doc pg))) pg)
  end.

Definition lazy_pass (E : Env) (eng : LazyLoad.Engine) (st : World * Page)
  : World * Page :=
  match LazyLoad.load E eng None st.1 st.2 with
  | (_, w, pg) => (w, deliver false (fun _ => true) (S (length (doc pg))) pg)
  end.

Definition one_img : World * Page := (empty_world, page_of [img "a.png"]).

(** ** Vocabulary of the applier *)

(** The slots of [Promise.all] alone: what [settle] does to them. *)
Definition fill (s : list (option Wrapped)) (ev : nat * Wrapped)
  : list (option Wrapped) :=
  match s !! ev.1 with
  | Some None => <[ ev.1 := Some ev.2 ]> s
  | _ => s
  end.

(** The settle events of the resolutions [rs], each tagged with the
    position of its promise. *)
Definition events_of (rs : list Wrapped) : list (nat * Wrapped) :=
  imap (fun i r => (i, r)) rs.

(** The leading descriptors whose resolution carries a payload. *)
Fixpoint resolved_prefix (objs : list DBObj) : list DBObj :=
  match objs with
  | [] => []
  | o :: rest =>
      match d_blob (data o) with
      | Some _ => o :: resolved_prefix rest
      | None => []
      end
  end.

(** The handler the [forEach] of [applyElements] leaves on the element of
    descriptor number [j]. *)
Definition handler_at (objs : list DBObj) (j : nat) : option Handler :=
  if Nat.leb (length objs - 1) j then None else Some (objs, j).

(** The elements of the descriptors are in the document, take a payload
    ([switch] has a case for their tag) and carry the handlers of the
    chain over [objs]. *)
Definition chained (scripts : bool) (objs : list DBObj) (d : list Elem) : Prop :=
  forall j o, objs !! j = Some o ->
    exists e, d !! el o = Some e /\
              assigns scripts (tagName e) = true /\
              onload e = handler_at objs j /\
              onerror e = handler_at objs j.

(** The same elements before the chain is installed: in the document, with
    a tag that takes a payload and without handlers. *)
Definition unchained (scripts : bool) (objs : list DBObj) (d : list Elem) : Prop :=
  forall o, o ∈ objs ->
    exists e, d !! el o = Some e /\
              assigns scripts (tagName e) = true /\
              onload e = None /\
              onerror e = None.

(** ** Further operations of the public interface *)

Module EagerOps.
Import Eager.

(** [prune(keys)] is [_prune(keys)]. *)
Definition prune : Env -> bool -> list string -> World -> option World :=
  _prune.

(** [clear()]; [None] is an exception thrown to the caller. The request has
    no handlers; [clear_err] tells whether it fails. The trace has no event
    for it. *)
Definition clear (E : Env) (db : bool) (clear_err : bool) (w : World)
  : option World :=
  if negb db then Some w
  else match _store E db with
       | NoStore => Some w
       | StoreThrows => None
       | StoreOk => Some (if clear_err then w else setStore ∅ w)
       end.

End EagerOps.

Module LazyOps.
Import Lazy.

(** [clear()] *)
Definition clear (E : Env) (dbp_ok : bool) (clear_err : bool) (w : World)
  : Settled unit * World :=
  if negb (usable E dbp_ok) then (Rejected ErrDOM, w)
  else if clear_err then (Rejected ErrDOM, w)
  else (Fulfilled tt, setStore ∅ w).

End LazyOps.

(** ** Vocabulary of the further properties *)

(** Every record of the store is as [fetchObject] writes it: it carries the
    key it is stored under, a payload and a hash. *)
Definition written (s : gmap string Data) : Prop :=
  forall k d, s !! k = Some d ->
    d_key d = Some k /\ is_Some (d_blob d) /\ is_Some (d_hash d).

(** The expiry of the descriptor, if it has one, is not in the past. *)
Definition fresh (E : Env) (obj : DBObj) : Prop :=
  match expiry obj with
  | Some e => (now E <= e)%Z
  | None => True
  end.

(** The request for the locator fails: [fetch] rejects or the status is
    not a success. *)
Definition fetch_fails (E : Env) (u : string) : Prop :=
  net E u = FetchReject \/ exists body, net E u = FetchResp false body.



(** A second descriptor, for the key ["b"]. *)
Definition obj_b : DBObj :=
  mkObj 1 "b" "b.png" "hb" true None emptyData.

(** A store that holds, under ["a"], a record for the hash ["h1"] that
    expired at time 5. *)
Definition rec_old : Data := mkData (Some "a") (Some [7%Z]) (Some "h1") (Some 5%Z).

Definition world_old : World := mkWorld {[ "a" := rec_old ]} [].


(** * Properties *)

(** ** Traces *)

Lemma count_fetches_snoc (t : list Event) (e : Event) :
  count_fetches (t ++ [e]) =
  (count_fetches t + (if is_fetch e then 1 else 0))%nat.
Proof.
  unfold count_fetches.
  rewrite List.filter_app, length_app; simpl.
  destruct (is_fetch e); reflexivity.
Qed.

Ltac count_trace :=
  simpl; rewrite ?count_fetches_snoc; simpl; try lia.

(** ** Resolution never rejects *)


(** The eager implementation never rejects. *)
Lemma eager_getObject_never_rejects E db obj w e :
  fst (Eager._getObject E db obj w) <> Rejected e.
Proof.
  unfold Eager._getObject.
  repeat case_match; simplify_eq; simpl; congruence.
Qed.

(** It fulfils whenever the body of a successful response can be read and
    the stored record carries its key. *)
Lemma eager_getObject_fulfils E db obj w :
  (forall ok, net E (src obj) <> FetchResp ok None) ->
  (forall d, store w !! key obj = Some d -> d_key d <> None) ->
  exists d, fst (Eager._getObject E db obj w) = Fulfilled (withData obj d) /\
            resolved_with E (store w) obj d.
Proof.
  intros Hbody Hkey.
  unfold Eager._getObject, Eager._getDBblob, Eager._fetchObject,
    Eager.deleteKey, Eager._store.
  repeat case_match; simplify_eq; simpl in *;
    try (exfalso; eapply Hbody; (eassumption || reflexivity));
    try (exfalso; eapply Hkey; (eassumption || reflexivity));
    eexists; (split; [reflexivity|]);
    eauto using resolved_with.
Qed.

(** C1. Resolution is meant to end, for every descriptor, in a fulfilled
    result that carries the payload or the record without payload. The eager
    [_getObject] does not: with an empty store and a response whose status is
    a success but whose body cannot be read, the promise of [_fetchObject]
    is never settled, and so the promise of [_getObject] is never settled
    either, after one lookup and one fetch. On the same input the lazy
    [getObject] fulfils with the record without payload. *)
Theorem C1_eager_getObject_unreadable_body_pending :
  Eager._getObject (healthy 0 broken_body) true obj_a empty_world =
    (Pending, mkWorld ∅ [EvGet "a"; EvFetch "a.png"]) /\
  fst (Lazy.getObject (healthy 0 broken_body) true obj_a empty_world) =
    Fulfilled (withData obj_a (dataOf obj_a None)).
Proof. split; reflexivity. Qed.

(** ** Store hits *)

(** C2, as the code has it. A stored record that is valid for the
    descriptor is returned as it is, after one lookup and nothing else: no
    fetch, no write. The eager implementation does so for every descriptor;
    the lazy one asks in addition that the key recorded in the stored record
    is a non-empty string. *)
Theorem C2_valid_entry_is_served (E : Env) (obj : DBObj) (w : World) (d : Data) :
  stored_under (store w) (key obj) d ->
  valid_for E obj d ->
  reads_ok E (key obj) ->
  Eager._getObject E true obj w =
    (Fulfilled (withData obj d), emit (EvGet (key obj)) w) /\
  (truthy (key obj) = true ->
   Lazy.getObject E true obj w =
     (Fulfilled (withData obj d), emit (EvGet (key obj)) w)).
Proof.
  intros [Hs Hk] [Hh He] [Htx Hget].
  assert (Hdiff : hash_differs d obj = false).
  { unfold hash_differs; rewrite Hh, String.eqb_refl; reflexivity. }
  assert (Hexp : expired E d = false).
  { unfold expired; destruct (d_expiry d); [apply Z.ltb_ge; exact He|reflexivity]. }
  split.
  - unfold Eager._getObject, Eager._getDBblob, Eager._store; simpl.
    rewrite Htx, Hget, Hs, Hdiff, Hexp, andb_false_r; reflexivity.
  - intros Hne.
    unfold Lazy.getObject, Lazy.getDBblob, Lazy.get, Lazy.usable; simpl.
    rewrite Htx, Hget; simpl.
    rewrite Hs, Hk; simpl.
    rewrite Hne, Hdiff, Hexp, andb_false_r; reflexivity.
Qed.

Lemma C2_valid_entry_is_served_witness :
  Eager._getObject (healthy 0 not_found) true
    (mkObj 0 "a" "a.png" "h0" true None emptyData) world_h0 =
    (Fulfilled (withData (mkObj 0 "a" "a.png" "h0" true None emptyData)
                  (mkData (Some "a") (Some [7%Z]) (Some "h0") None)),
     emit (EvGet "a") world_h0).
Proof.
  refine (proj1 (C2_valid_entry_is_served (healthy 0 not_found)
            (mkObj 0 "a" "a.png" "h0" true None emptyData) world_h0
            (mkData (Some "a") (Some [7%Z]) (Some "h0") None) _ _ _)).
  - split; reflexivity.
  - split; [reflexivity|exact I].
  - split; reflexivity.
Defined.

(** C2 fails for the lazy implementation at the descriptor of
    [<img data-src="">]: after a first resolution wrote a valid record under
    the empty key, the second resolution does not serve it and fetches the
    locator again. *)
Lemma C2_counterexample_lazy_blank_key :
  stored_under (store blank_world) (key obj_blank)
    (dataOf obj_blank (Some [1%Z])) /\
  valid_for (healthy 0 (serving [1%Z])) obj_blank
    (dataOf obj_blank (Some [1%Z])) /\
  reads_ok (healthy 0 (serving [1%Z])) (key obj_blank) /\
  count_fetches (trace blank_world) = 1%nat /\
  count_fetches
    (trace (snd (Lazy.getObject (healthy 0 (serving [1%Z])) true obj_blank
                   blank_world))) = 2%nat.
Proof.
  repeat split; vm_compute; trivial.
Qed.

(** ** Store misses *)

Lemma elapsed_expired E d : elapsed E d -> expired E d = true.
Proof.
  unfold elapsed, expired; destruct (d_expiry d); [|tauto].
  intros H; apply Z.ltb_lt; exact H.
Qed.

Lemma mismatch_differs d obj :
  d_hash d <> Some (hash obj) -> hash_differs d obj = true.
Proof.
  unfold hash_differs; destruct (d_hash d) as [h|]; [|reflexivity].
  intros H; destruct (String.eqb_spec h (hash obj)); [congruence|reflexivity].
Qed.

(** What the lookup decides on a stale record. *)
Lemma stale_is_a_miss E obj d :
  stale_for E obj d ->
  truthy (hash obj) = true \/ elapsed E d ->
  truthy (hash obj) && hash_differs d obj = true \/ expired E d = true.
Proof.
  intros [Hh|He] [Ht|He']; auto using elapsed_expired.
  left; rewrite Ht, mismatch_differs; auto.
Qed.

Lemma eager_getDBblob_miss E db obj w d :
  stored_under (store w) (key obj) d ->
  stale_for E obj d ->
  truthy (hash obj) = true \/ elapsed E d ->
  exists e w1,
    Eager._getDBblob E db obj w = (Rejected e, w1) /\
    count_fetches (trace w1) = count_fetches (trace w).
Proof.
  intros [Hs Hk] Hstale Hne.
  destruct (stale_is_a_miss E obj d Hstale Hne) as [Hm|Hm];
    unfold Eager._getDBblob, Eager.deleteKey, Eager._store; simpl;
    rewrite Hs, ?Hk;
    repeat case_match; simplify_eq; do 2 eexists;
    (split; [reflexivity|count_trace]).
Qed.

Lemma lazy_getDBblob_miss E ok obj w d :
  stored_under (store w) (key obj) d ->
  stale_for E obj d ->
  truthy (hash obj) = true \/ elapsed E d ->
  exists e w1,
    Lazy.getDBblob E ok obj w = (Rejected e, w1) /\
    count_fetches (trace w1) = count_fetches (trace w).
Proof.
  intros [Hs Hk] Hstale Hne.
  destruct (stale_is_a_miss E obj d Hstale Hne) as [Hm|Hm];
    unfold Lazy.getDBblob, Lazy.get, Lazy.deleteKey; simpl;
    rewrite ?Hs, ?Hk;
    repeat case_match; simplify_eq; try congruence; do 2 eexists;
    (split; [reflexivity|count_trace]).
Qed.

(** [_fetchObject] issues one fetch whatever happens next. *)
Lemma eager_fetchObject_once E db obj w :
  count_fetches (trace (snd (Eager._fetchObject E db obj w))) =
  S (count_fetches (trace w)).
Proof.
  unfold Eager._fetchObject, Eager._store.
  repeat case_match; simplify_eq; count_trace.
Qed.

Lemma lazy_fetchObject_once E ok obj w :
  count_fetches (trace (snd (Lazy.fetchObject E ok obj w))) =
  S (count_fetches (trace w)).
Proof.
  unfold Lazy.fetchObject, Lazy.set.
  repeat case_match; simplify_eq; count_trace.
Qed.

(** A fetch that succeeds, followed by a write the store accepts, leaves
    the record of the descriptor under its key. *)
Lemma eager_fetchObject_stores E obj w b :
  net E (src obj) = FetchResp true (Some b) ->
  writes_ok E (key obj) ->
  fst (Eager._fetchObject E true obj w) = Fulfilled (dataOf obj (Some b)) /\
  store (snd (Eager._fetchObject E true obj w)) !! key obj =
    Some (dataOf obj (Some b)).
Proof.
  intros Hn [Htx Hp].
  unfold Eager._fetchObject, Eager._store; simpl.
  rewrite Hn, Htx, Hp; simpl.
  split; [reflexivity|apply lookup_insert_eq].
Qed.

Lemma lazy_fetchObject_stores E obj w b :
  net E (src obj) = FetchResp true (Some b) ->
  writes_ok E (key obj) ->
  fst (Lazy.fetchObject E true obj w) = Fulfilled (dataOf obj (Some b)) /\
  store (snd (Lazy.fetchObject E true obj w)) !! key obj =
    Some (dataOf obj (Some b)).
Proof.
  intros Hn [Htx Hp].
  unfold Lazy.fetchObject, Lazy.set, Lazy.usable; simpl.
  rewrite Hn, Htx, Hp; simpl.
  split; [reflexivity|apply lookup_insert_eq].
Qed.

Lemma eager_getObject_after_miss E db obj w e w1 :
  Eager._getDBblob E db obj w = (Rejected e, w1) ->
  exists w2,
    count_fetches (trace w2) = count_fetches (trace w1) /\
    Eager._getObject E db obj w =
      match Eager._fetchObject E db obj w2 with
      | (Fulfilled d, w3) => (Fulfilled (withData obj d), w3)
      | (Rejected _, w3) => (Fulfilled (withData obj (dataOf obj None)), w3)
      | (Pending, w3) => (Pending, w3)
      end.
Proof.
  intros H; unfold Eager._getObject; rewrite H.
  eexists; split; [|reflexivity].
  destruct (has_message e); count_trace.
Qed.

Lemma lazy_getObject_after_miss E ok obj w e w1 :
  Lazy.getDBblob E ok obj w = (Rejected e, w1) ->
  exists w2,
    count_fetches (trace w2) = count_fetches (trace w1) /\
    Lazy.getObject E ok obj w =
      match Lazy.fetchObject E ok obj w2 with
      | (Fulfilled d, w3) => (Fulfilled (withData obj d), w3)
      | (Rejected _, w3) => (Fulfilled (withData obj (dataOf obj None)), w3)
      | (Pending, w3) => (Pending, w3)
      end.
Proof.
  intros H; unfold Lazy.getObject; rewrite H.
  eexists; split; [|reflexivity].
  destruct (has_message e); count_trace.
Qed.

(** C3, as the code has it. When the record stored under the key of the
    descriptor is stale (its hash differs from a non-empty descriptor hash,
    or its expiry has elapsed), resolution issues exactly one fetch, whatever
    the faults of the store; and when that fetch succeeds and the store
    accepts the write, resolution fulfils with the record of the descriptor
    (its key, hash, expiry and the fetched payload) and the store holds
    exactly that record under the key. *)
Theorem C3_stale_entry_is_refetched (E : Env) (db : bool) (obj : DBObj)
  (w : World) (d : Data) :
  stored_under (store w) (key obj) d ->
  stale_for E obj d ->
  truthy (hash obj) = true \/ elapsed E d ->
  (count_fetches (trace (snd (Eager._getObject E db obj w))) =
     S (count_fetches (trace w)) /\
   count_fetches (trace (snd (Lazy.getObject E db obj w))) =
     S (count_fetches (trace w))) /\
  (forall b,
     db = true ->
     net E (src obj) = FetchResp true (Some b) ->
     writes_ok E (key obj) ->
     (fst (Eager._getObject E db obj w) =
        Fulfilled (withData obj (dataOf obj (Some b))) /\
      store (snd (Eager._getObject E db obj w)) !! key obj =
        Some (dataOf obj (Some b))) /\
     (fst (Lazy.getObject E db obj w) =
        Fulfilled (withData obj (dataOf obj (Some b))) /\
      store (snd (Lazy.getObject E db obj w)) !! key obj =
        Some (dataOf obj (Some b)))).
Proof.
  intros Hs Hstale Hne.
  destruct (eager_getDBblob_miss E db obj w d Hs Hstale Hne)
    as (e1 & w1 & Hg1 & Hc1).
  destruct (lazy_getDBblob_miss E db obj w d Hs Hstale Hne)
    as (e2 & u1 & Hg2 & Hc2).
  destruct (eager_getObject_after_miss _ _ _ _ _ _ Hg1) as (w2 & Hw2 & He).
  destruct (lazy_getObject_after_miss _ _ _ _ _ _ Hg2) as (u2 & Hu2 & Hl).
  rewrite He, Hl.
  split; [split|].
  - pose proof (eager_fetchObject_once E db obj w2) as Ho.
    destruct (Eager._fetchObject E db obj w2) as [[?|?|] w3];
      simpl in *; lia.
  - pose proof (lazy_fetchObject_once E db obj u2) as Ho.
    destruct (Lazy.fetchObject E db obj u2) as [[?|?|] w3];
      simpl in *; lia.
  - intros b -> Hn Hw; split.
    + destruct (eager_fetchObject_stores E obj w2 b Hn Hw) as [Hf Hst].
      destruct (Eager._fetchObject E true obj w2) as [r w3];
        simpl in *; subst r; auto.
    + destruct (lazy_fetchObject_stores E obj u2 b Hn Hw) as [Hf Hst].
      destruct (Lazy.fetchObject E true obj u2) as [r w3];
        simpl in *; subst r; auto.
Qed.

Lemma C3_stale_entry_is_refetched_witness :
  count_fetches
    (trace (snd (Eager._getObject (healthy 0 (serving [1%Z])) true obj_a
                   world_h0))) = 1%nat /\
  store (snd (Eager._getObject (healthy 0 (serving [1%Z])) true obj_a
                world_h0)) !! "a" = Some (dataOf obj_a (Some [1%Z])).
Proof.
  destruct (C3_stale_entry_is_refetched (healthy 0 (serving [1%Z])) true
              obj_a world_h0
              (mkData (Some "a") (Some [7%Z]) (Some "h0") None))
    as [[Hc _] Hst].
  - split; reflexivity.
  - left; simpl; congruence.
  - left; reflexivity.
  - split; [exact Hc|].
    apply (Hst [1%Z]); [reflexivity|reflexivity|split; reflexivity].
Defined.

(** C3 fails at a descriptor whose hash is the empty string: the stored
    record has another hash and no expiry, yet both implementations serve
    it, fetch nothing and leave it in the store. *)
Lemma C3_counterexample_empty_hash :
  stored_under (store world_h0) (key obj_nohash)
    (mkData (Some "a") (Some [7%Z]) (Some "h0") None) /\
  stale_for (healthy 0 (serving [1%Z])) obj_nohash
    (mkData (Some "a") (Some [7%Z]) (Some "h0") None) /\
  count_fetches
    (trace (snd (Eager._getObject (healthy 0 (serving [1%Z])) true obj_nohash
                   world_h0))) = 0%nat /\
  count_fetches
    (trace (snd (Lazy.getObject (healthy 0 (serving [1%Z])) true obj_nohash
                   world_h0))) = 0%nat /\
  store (snd (Eager._getObject (healthy 0 (serving [1%Z])) true obj_nohash
                world_h0)) !! "a" =
    Some (mkData (Some "a") (Some [7%Z]) (Some "h0") None).
Proof.
  repeat split; try reflexivity.
  left; simpl; congruence.
Qed.

(** ** Scanning *)

Lemma describe_fresh async_of E opt d i o :
  describe async_of E opt d i = Some o ->
  el o = i /\ data o = emptyData /\
  exists e, d !! i = Some e /\ indexed e = false.
Proof.
  unfold describe; intros H.
  destruct (d !! i) as [e|] eqn:He; [|discriminate].
  destruct (indexed e) eqn:Hi; [discriminate|].
  injection H as <-; simpl; eauto.
Qed.

Lemma scan_fresh async_of E opt elements d o :
  o ∈ scan async_of E opt elements d ->
  data o = emptyData /\
  exists e, d !! el o = Some e /\ indexed e = false.
Proof.
  unfold scan; intros H.
  apply list_elem_of_omap in H as (i & _ & Hd).
  apply describe_fresh in Hd as (<- & Hdata & He); auto.
Qed.

(** ** A pass without a connection *)

Lemma eager_unavailable (E : Env) (o : Opts) (w : World) :
  EagerLoad.db (EagerLoad.construct o) = false /\
  (opt_skip o = true \/ open_ok E = false ->
   EagerLoad.db (fst (EagerLoad.init E (EagerLoad.construct o) w)) = false).
Proof.
  split; [reflexivity|].
  unfold EagerLoad.init; simpl.
  intros [->| ->]; [reflexivity|].
  destruct (opt_skip o); reflexivity.
Qed.

(** Without a connection the eager pass reads no store, fetches nothing and
    applies nothing. *)
Lemma eager_load_without_db E eng elements w pg :
  EagerLoad.db eng = false ->
  snd (fst (EagerLoad.load E eng elements w pg)) = w /\
  applied (snd (EagerLoad.load E eng elements w pg)) = applied pg /\
  loading (snd (EagerLoad.load E eng elements w pg)) = loading pg.
Proof.
  intros Hdb.
  unfold EagerLoad.load, EagerLoad._setupElements, EagerLoad._applyElements,
    applyElements.
  rewrite Hdb; simpl.
  destruct (scan _ E (EagerLoad.opt eng) elements (doc pg) !! 0%nat)
    as [o|] eqn:Ho; simpl; [|auto].
  apply list_elem_of_lookup_2, scan_fresh in Ho as [-> _]; simpl; auto.
Qed.

(** C10. In the eager implementation, when [this.db] holds no connection
    (the engine was only constructed, or [init] was skipped or failed) and
    the scan yields no descriptor, [_setupElements] calls [_applyElements]
    on the empty list, whose [objs[0].data] is a TypeError: [load] rejects
    with it, leaving the store and the page as they were. *)
Theorem C10_eager_load_rejects_on_empty_scan (E : Env) (o : Opts)
  (eng : EagerLoad.Engine) (elements : option (list nat)) (w0 w : World)
  (pg : Page) :
  eng = EagerLoad.construct o \/
  (eng = fst (EagerLoad.init E (EagerLoad.construct o) w0) /\
   (opt_skip o = true \/ open_ok E = false)) ->
  scan EagerLoad.isAsync_of E (EagerLoad.opt eng) elements (doc pg) = [] ->
  EagerLoad.load E eng elements w pg = (Rejected ErrType, w, pg).
Proof.
  intros Heng Hscan.
  assert (Hdb : EagerLoad.db eng = false).
  { destruct Heng as [->|[-> Hwhy]]; [reflexivity|].
    apply (eager_unavailable E o w0); exact Hwhy. }
  unfold EagerLoad.load, EagerLoad._setupElements, EagerLoad._applyElements,
    applyElements.
  rewrite Hdb, Hscan; reflexivity.
Qed.

Lemma C10_eager_load_rejects_on_empty_scan_witness :
  EagerLoad.load (healthy 0 not_found)
    (fst (EagerLoad.init (healthy 0 not_found)
            (EagerLoad.construct skip_opts) empty_world))
    None empty_world (page_of []) =
  (Rejected ErrType, empty_world, page_of []).
Proof.
  apply (C10_eager_load_rejects_on_empty_scan (healthy 0 not_found) skip_opts
           _ None empty_world empty_world (page_of [])).
  - right; split; [reflexivity|left; reflexivity].
  - reflexivity.
Defined.

(** ** The [skip] option *)

(** C8. With [skip] enabled every resolution is meant to go to the network
    and the store is meant to stay closed. On a page with one
    [<img data-src="a.png">] and a network that serves it: the eager engine
    opens no store, but its [load] fetches nothing and applies nothing (the
    descriptor is handed to [_applyElements] with [data: {}], and
    [_applyElement] returns at once without a blob); the lazy engine never
    reads [skip]: its constructor opens the store and its [load] reads and
    writes it. *)
Theorem C8_skip_is_not_network_only :
  EagerLoad.init (healthy 0 (serving [1%Z])) (EagerLoad.construct skip_opts)
    empty_world = (EagerLoad.construct skip_opts, empty_world) /\
  EagerLoad.load (healthy 0 (serving [1%Z])) (EagerLoad.construct skip_opts)
    None empty_world (page_of [img "a.png"]) =
    (Fulfilled tt, empty_world, page_of [img "a.png"]) /\
  LazyLoad.construct (healthy 0 (serving [1%Z])) skip_opts empty_world =
    (LazyLoad.mkEngine skip_opts true, mkWorld ∅ [EvOpen]) /\
  trace (snd (fst (LazyLoad.load (healthy 0 (serving [1%Z]))
                     (LazyLoad.mkEngine skip_opts true) None
                     (mkWorld ∅ [EvOpen]) (page_of [img "a.png"])))) =
    [EvOpen; EvGet "a.png"; EvFetch "a.png"; EvPut "a.png"].
Proof. repeat split; reflexivity. Qed.

(** ** Pruning inside [load] *)

Lemma eager_prune_total E db ks w :
  tx_throws E = false ->
  exists w', Eager._prune E db ks w = Some w'.
Proof.
  intros Htx; unfold Eager._prune, Eager._store.
  rewrite Htx; destruct db; simpl; [|eauto].
  destruct (keys_err E); eauto.
Qed.

(** C9, as the code has it. The eager [load] does not wait for [_prune]:
    once [_setupElements] is fulfilled, [load] is fulfilled whatever the key
    enumeration and the deletions do, as long as the transaction of [_prune]
    can be created. The lazy [load] awaits [prune]: once [setupElements] is
    fulfilled with descriptors and [prune] is enabled, the outcome of [load]
    is the outcome of [prune], a rejection when the keys cannot be
    enumerated. *)
Theorem C9_prune_failures_and_load (E : Env) (elements : option (list nat))
  (w w1 : World) (pg pg1 : Page) (objs : option (list DBObj)) :
  (forall eng,
     EagerLoad._setupElements E eng elements w pg = (Fulfilled objs, w1, pg1) ->
     tx_throws E = false ->
     exists w2, EagerLoad.load E eng elements w pg = (Fulfilled tt, w2, pg1)) /\
  (forall eng,
     LazyLoad.setupElements E eng elements w pg = (Fulfilled objs, w1, pg1) ->
     no_objs objs = false ->
     opt_prune (LazyLoad.opt eng) = true ->
     fst (fst (LazyLoad.load E eng elements w pg)) =
       match fst (Lazy.prune E (LazyLoad.dbp_ok eng)
                    (List.map key (default [] objs)) w1) with
       | Fulfilled _ => Fulfilled tt
       | Rejected e => Rejected e
       | Pending => Pending
       end /\
     (Lazy.usable E (LazyLoad.dbp_ok eng) = true -> keys_err E = true ->
      fst (fst (LazyLoad.load E eng elements w pg)) = Rejected ErrDOM)).
Proof.
  split; intros eng Hs.
  - intros Htx; unfold EagerLoad.load; rewrite Hs.
    destruct (negb (EagerLoad.db eng) || no_objs objs); [eauto|].
    destruct (opt_prune (EagerLoad.opt eng)); [|eauto].
    destruct (eager_prune_total E (EagerLoad.db eng)
                (List.map key (default [] objs)) w1 Htx) as [w2 ->].
    eauto.
  - intros Hn Hp; unfold LazyLoad.load; rewrite Hs, Hn, Hp.
    split.
    + destruct (Lazy.prune _ _ _ _) as [[?|?|] ?]; reflexivity.
    + intros Hu Hk; unfold Lazy.prune, Lazy.keys.
      rewrite Hu, Hk; reflexivity.
Qed.

Lemma C9_prune_failures_and_load_witness :
  (exists w2,
     EagerLoad.load (keys_failing (serving [1%Z]))
       (EagerLoad.mkEngine prune_opts true) None empty_world
       (page_of [img "a.png"]) =
     (Fulfilled tt, w2,
      snd (EagerLoad._setupElements (keys_failing (serving [1%Z]))
             (EagerLoad.mkEngine prune_opts true) None empty_world
             (page_of [img "a.png"])))) /\
  fst (fst (LazyLoad.load (keys_failing (serving [1%Z]))
              (LazyLoad.mkEngine prune_opts true) None empty_world
              (page_of [img "a.png"]))) = Rejected ErrDOM.
Proof.
  split.
  - eapply (proj1 (C9_prune_failures_and_load (keys_failing (serving [1%Z]))
                     None empty_world _ (page_of [img "a.png"]) _ _));
      reflexivity.
  - eapply (proj2 (C9_prune_failures_and_load (keys_failing (serving [1%Z]))
                     None empty_world _ (page_of [img "a.png"]) _ _)
              (LazyLoad.mkEngine prune_opts true));
      reflexivity.
Defined.

(** C9 fails for the lazy implementation: with [prune] enabled and one
    [<img data-src="a.png">] that the network serves, [load] is fulfilled
    when the keys can be enumerated and rejected when they cannot. It also
    fails for the eager implementation when the prune transaction cannot be
    created: [_prune] throws inside [load]. *)
Lemma C9_counterexample_load_depends_on_prune :
  fst (fst (LazyLoad.load (healthy 0 (serving [1%Z]))
              (LazyLoad.mkEngine prune_opts true) None empty_world
              (page_of [img "a.png"]))) = Fulfilled tt /\
  fst (fst (LazyLoad.load (keys_failing (serving [1%Z]))
              (LazyLoad.mkEngine prune_opts true) None empty_world
              (page_of [img "a.png"]))) = Rejected ErrDOM /\
  fst (fst (EagerLoad.load (tx_failing (serving [1%Z]))
              (EagerLoad.mkEngine prune_opts true) None empty_world
              (page_of [img "a.png"]))) = Rejected ErrDOM.
Proof. repeat split; reflexivity. Qed.

(** ** Pruning *)

Lemma keyMap_of_spec (ks : list string) (k : string) :
  k ∈ keyMap_of ks <-> k ∈ ks.
Proof.
  unfold keyMap_of.
  assert (H : forall (acc : gset string),
             k ∈ foldl (fun obj v => {[ v ]} ∪ obj) acc ks <->
             k ∈ ks \/ k ∈ acc).
  { induction ks as [|a ks IH]; intros acc; simpl.
    - rewrite elem_of_nil; tauto.
    - rewrite IH, elem_of_union, elem_of_singleton, elem_of_cons.
      intuition congruence. }
  rewrite H, elem_of_empty; tauto.
Qed.

Lemma mem_spec (k : string) (l : list string) :
  mem k l = true <-> k ∈ l.
Proof.
  unfold mem; rewrite existsb_exists; split.
  - intros (x & Hin & Heq). apply String.eqb_eq in Heq as ->.
    apply list_elem_of_In; exact Hin.
  - intros Hin. exists k; split; [apply list_elem_of_In; exact Hin|].
    apply String.eqb_refl.
Qed.

(** A key counts as live when it was given or when [Object.prototype] has a
    property of that name. *)
Lemma in_keyMap_spec (ks : list string) (k : string) :
  in_keyMap (keyMap_of ks) k = true <-> k ∈ ks \/ k ∈ object_prototype.
Proof.
  unfold in_keyMap.
  rewrite orb_true_iff, bool_decide_eq_true, keyMap_of_spec, mem_spec.
  reflexivity.
Qed.

Lemma storedKeys_spec (s : gmap string Data) (k : string) :
  k ∈ storedKeys s <-> is_Some (s !! k).
Proof.
  unfold storedKeys.
  rewrite list_elem_of_fmap; split.
  - intros ([k' d] & -> & Hin).
    apply elem_of_map_to_list in Hin; simpl; eauto.
  - intros [d Hd]. exists (k, d); split; [reflexivity|].
    apply elem_of_map_to_list; exact Hd.
Qed.

Section EagerPrune.
Variable E : Env.
Variable keyMap : gset string.
Hypothesis Htx : tx_throws E = false.

Local Abbreviation step := (Eager.prune_step E true keyMap).

Lemma eager_step_lookup (w : World) (a k : string) :
  store (step w a) !! k =
  if bool_decide (a = k) && negb (in_keyMap keyMap a || del_err E a)
  then None else store w !! k.
Proof.
  unfold Eager.prune_step, Eager.deleteKey, Eager._store; simpl; rewrite Htx.
  destruct (in_keyMap keyMap a); simpl; [rewrite andb_false_r; reflexivity|].
  destruct (del_err E a); simpl; [rewrite andb_false_r; reflexivity|].
  rewrite andb_true_r.
  case_bool_decide as Hak.
  - subst; apply lookup_delete_eq.
  - apply lookup_delete_ne; exact Hak.
Qed.

Lemma eager_sweep_lookup (l : list string) (w : World) (k : string) :
  store (foldl step w l) !! k =
  if bool_decide (k ∈ l) && negb (in_keyMap keyMap k || del_err E k)
  then None else store w !! k.
Proof.
  revert w; induction l as [|a l IH]; intros w; simpl; [reflexivity|].
  rewrite IH, eager_step_lookup.
  destruct (decide (a = k)) as [->|Hne].
  - rewrite (bool_decide_eq_true_2 (k = k) eq_refl).
    rewrite (bool_decide_eq_true_2 (k ∈ k :: l) (proj2 (elem_of_cons l k k) (or_introl eq_refl))).
    simpl.
    destruct (bool_decide (k ∈ l)); simpl;
      destruct (negb (in_keyMap keyMap k || del_err E k)); reflexivity.
  - rewrite (bool_decide_eq_false_2 (a = k) Hne); simpl.
    assert (Hiff : bool_decide (k ∈ a :: l) = bool_decide (k ∈ l)).
    { apply bool_decide_ext; rewrite elem_of_cons; intuition congruence. }
    rewrite Hiff; reflexivity.
Qed.
End EagerPrune.

(** What [_prune] leaves in the store when the keys can be listed: a stored
    key survives exactly when it counts as live or its delete request
    fails; the records of the surviving keys are untouched. *)
Lemma eager_prune_spec (E : Env) (ks : list string) (w : World) :
  tx_throws E = false ->
  keys_err E = false ->
  exists w', Eager._prune E true ks w = Some w' /\
    forall k, store w' !! k =
      if in_keyMap (keyMap_of ks) k || del_err E k then store w !! k
      else None.
Proof.
  intros Htx Hk.
  unfold Eager._prune, Eager._store; simpl; rewrite Htx, Hk.
  eexists; split; [reflexivity|].
  intros k. rewrite (eager_sweep_lookup E (keyMap_of ks) Htx); simpl.
  destruct (in_keyMap (keyMap_of ks) k || del_err E k); simpl;
    [rewrite andb_false_r; reflexivity|].
  rewrite andb_true_r.
  case_bool_decide as Hin; [reflexivity|].
  rewrite storedKeys_spec in Hin.
  destruct (store w !! k) eqn:Hl; [exfalso; eauto|reflexivity].
Qed.

Lemma sweep_lookup (l : list string) (s : gmap string Data) (k : string) :
  foldl (fun s k => delete k s) s l !! k =
  if bool_decide (k ∈ l) then None else s !! k.
Proof.
  revert s; induction l as [|a l IH]; intros s; simpl; [reflexivity|].
  rewrite IH.
  destruct (decide (a = k)) as [->|Hne].
  - rewrite (bool_decide_eq_true_2 (k ∈ k :: l)
               (proj2 (elem_of_cons l k k) (or_introl eq_refl))).
    rewrite lookup_delete_eq; destruct (bool_decide (k ∈ l)); reflexivity.
  - assert (Hiff : bool_decide (k ∈ a :: l) = bool_decide (k ∈ l)).
    { apply bool_decide_ext; rewrite elem_of_cons; intuition congruence. }
    rewrite Hiff, lookup_delete_ne by exact Hne; reflexivity.
Qed.

Lemma store_after_emits (l : list string) (w : World) :
  store (foldl (fun w k => emit (EvDelete k) w) w l) = store w.
Proof.
  revert w; induction l as [|a l IH]; intros w; simpl; [reflexivity|].
  rewrite IH; reflexivity.
Qed.

(** The same for the lazy [prune], whose deletions share one transaction. *)
Lemma lazy_prune_spec (E : Env) (ks : list string) (w : World) :
  tx_throws E = false ->
  keys_err E = false ->
  (forall k, del_err E k = false) ->
  exists w', Lazy.prune E true ks w = (Fulfilled tt, w') /\
    forall k, store w' !! k =
      if in_keyMap (keyMap_of ks) k then store w !! k else None.
Proof.
  intros Htx Hk Hd.
  unfold Lazy.prune, Lazy.keys, Lazy.delMany, Lazy.usable; simpl.
  rewrite Htx, Hk; simpl.
  assert (Hex : forall l, existsb (del_err E) l = false).
  { induction l as [|a l IH]; simpl; [reflexivity|]. rewrite Hd, IH; reflexivity. }
  rewrite Hex.
  eexists; split; [reflexivity|].
  intros k; simpl.
  rewrite sweep_lookup, store_after_emits; simpl.
  destruct (in_keyMap (keyMap_of ks) k) eqn:Hin.
  - rewrite bool_decide_eq_false_2; [reflexivity|].
    rewrite list_elem_of_In, filter_In, Hin; simpl; intros [_ ?]; discriminate.
  - case_bool_decide as Hmem; [reflexivity|].
    destruct (store w !! k) eqn:Hl; [|reflexivity].
    exfalso; apply Hmem.
    rewrite list_elem_of_In, filter_In, Hin, <- list_elem_of_In, storedKeys_spec.
    rewrite Hl; eauto.
Qed.

(** The example of the specification: pruning with the live keys ["k1"] and
    ["k2"] a store that holds ["k1"], ["k2"] and ["k3"]. *)
Lemma prune_k123 :
  (forall w', Eager._prune (healthy 0 not_found) true ["k1"; "k2"] world_k123
              = Some w' ->
              storedKeys (store w') = ["k1"; "k2"]) /\
  storedKeys (store (snd (Lazy.prune (healthy 0 not_found) true ["k1"; "k2"]
                            world_k123))) = ["k1"; "k2"].
Proof.
  split; [intros w' H; vm_compute in H; injection H as <-|]; reflexivity.
Qed.

(** C5. [prune(L)] is meant to delete every stored key outside [L]. The
    lookup map of both implementations is a plain object, so a stored key
    that names a property of [Object.prototype] passes for live:
    [prune([])] over a store whose only key is ["toString"] lists the keys,
    deletes nothing and leaves the store as it was. *)
Theorem C5_prune_keeps_prototype_named_key :
  Eager._prune (healthy 0 not_found) true [] world_proto =
    Some (mkWorld {[ "toString" := rec_of "toString" ]} [EvKeys]) /\
  Lazy.prune (healthy 0 not_found) true [] world_proto =
    (Fulfilled tt, mkWorld {[ "toString" := rec_of "toString" ]} [EvKeys]).
Proof. split; reflexivity. Qed.

(** ** When the ordered chain starts *)

Lemma open_slot_not_filled (s : list (option Wrapped)) (i : nat) :
  s !! i = Some None -> all_filled s = None.
Proof.
  intros H; apply mapM_None, Exists_exists.
  exists None; split; [eapply list_elem_of_lookup_2; exact H|reflexivity].
Qed.

Lemma start_filled (n : nat) (rs : list Wrapped) :
  all_filled (replicate n None) = Some rs -> rs = [].
Proof.
  destruct n; simpl; [intros [= <-]; reflexivity|].
  unfold all_filled; simpl; discriminate.
Qed.

Section Gathering.
Variable scripts : bool.
Variable pg : Page.

Lemma gathered_start (n : nat) : gathered scripts pg (start n pg).
Proof.
  unfold gathered, start; simpl.
  destruct (all_filled (replicate n None)) as [rs|] eqn:H; [|reflexivity].
  apply start_filled in H as ->; reflexivity.
Qed.

Lemma gathered_settle (g : Gather) (ev : nat * Wrapped) :
  gathered scripts pg g -> gathered scripts pg (settle scripts g ev).
Proof.
  unfold gathered, settle; intros Hg.
  destruct (slots g !! ev.1) as [[r|]|] eqn:Hs; try exact Hg.
  rewrite (open_slot_not_filled _ _ Hs) in Hg.
  destruct (all_filled (<[ev.1:=Some ev.2]> (slots g))) as [rs|] eqn:Hf;
    simpl; rewrite Hf, Hg; reflexivity.
Qed.

Lemma gathered_settle_all (evs : list (nat * Wrapped)) (g : Gather) :
  gathered scripts pg g -> gathered scripts pg (settle_all scripts evs g).
Proof.
  revert g; induction evs as [|ev evs IH]; intros g Hg; simpl; [exact Hg|].
  apply IH, gathered_settle, Hg.
Qed.
End Gathering.

(** C7, as the code has it. While the resolutions of the ordered
    descriptors of a pass settle, in whatever order, nothing is applied
    until the last of them has settled; at that moment [applyElements] runs
    on the values in document order and applies the first ordered element,
    when its resolution carries a payload. *)
Theorem C7_chain_starts_when_all_settled (scripts : bool) (n : nat) (pg : Page)
  (evs : list (nat * Wrapped)) :
  (all_filled (slots (settle_all scripts evs (start n pg))) = None ->
   page (settle_all scripts evs (start n pg)) = pg) /\
  (forall rs o rest b,
     all_filled (slots (settle_all scripts evs (start n pg))) = Some rs ->
     values rs = o :: rest ->
     d_blob (data o) = Some b ->
     applied (page (settle_all scripts evs (start n pg))) =
       (applied pg ++ [el o])%list).
Proof.
  pose proof (gathered_settle_all scripts pg evs _ (gathered_start scripts pg n))
    as Hg.
  unfold gathered in Hg.
  split.
  - intros Hn; rewrite Hn in Hg; exact Hg.
  - intros rs o rest b Hs Hv Hb; rewrite Hs in Hg; rewrite Hg.
    unfold applyElements; rewrite Hv; simpl.
    unfold applyElement; rewrite Hb; reflexivity.
Qed.

Lemma C7_chain_starts_when_all_settled_witness :
  page (settle_all true [(1%nat, WFulfilled res_b)] (start 2 two_scripts)) =
    two_scripts /\
  applied (page (settle_all true
                   [(1%nat, WFulfilled res_b); (0%nat, WFulfilled res_a)]
                   (start 2 two_scripts))) =
    (applied two_scripts ++ [el res_a])%list.
Proof.
  split.
  - apply (proj1 (C7_chain_starts_when_all_settled true 2 two_scripts
                    [(1%nat, WFulfilled res_b)])); reflexivity.
  - apply (proj2 (C7_chain_starts_when_all_settled true 2 two_scripts
                    [(1%nat, WFulfilled res_b); (0%nat, WFulfilled res_a)])
             [WFulfilled res_a; WFulfilled res_b] res_a [res_b] [1%Z]);
      reflexivity.
Defined.

(** C7 fails on a pass with two ordered scripts: when the resolution of the
    first has settled and that of the second has not, the first script has
    not been applied; it is applied when the second settles. *)
Lemma C7_counterexample_first_waits_for_second :
  applied (page (settle_all true [(0%nat, WFulfilled res_a)]
                   (start 2 two_scripts))) = [] /\
  applied (page (settle_all true
                   [(0%nat, WFulfilled res_a); (1%nat, WFulfilled res_b)]
                   (start 2 two_scripts))) = [0%nat].
Proof. split; reflexivity. Qed.

(** ** The ordered chain *)

(** An element whose load fails advances the chain as one that loads: with
    both payloads resolved, both scripts are applied in document order,
    whichever events the elements fire. *)
Lemma chain_advances_on_error (loads : nat -> bool) :
  applied (deliver true loads 2
             (page (settle_all true
                      [(1%nat, WFulfilled res_b); (0%nat, WFulfilled res_a)]
                      (start 2 two_scripts)))) = [0%nat; 1%nat].
Proof.
  vm_compute.
  repeat (match goal with
          | |- context [loads ?i] => destruct (loads i)
          end; vm_compute);
  reflexivity.
Qed.

(** C4. Every ordered element is meant to be applied, in document order,
    whatever happens to the ones before it. On a pass over two ordered
    elements where the network does not serve the first and serves the
    second: [load] is fulfilled and the payload of the second is resolved
    and stored, but the first resolution carries no payload, [applyElement]
    returns at once for it, its element never fires a load or error event,
    and the second element is never applied. Both implementations agree. *)
Theorem C4_unresolved_first_element_blocks_chain :
  (fst (fst blocked_eager) = Fulfilled tt /\
   d_blob <$> store (snd (fst blocked_eager)) !! "b.js" = Some (Some [2%Z]) /\
   loading (snd blocked_eager) = [] /\
   applied (deliver true (fun _ => true) 4 (snd blocked_eager)) = []) /\
  (fst (fst blocked_lazy) = Fulfilled tt /\
   d_blob <$> store (snd (fst blocked_lazy)) !! "b.png" = Some (Some [2%Z]) /\
   loading (snd blocked_lazy) = [] /\
   applied (deliver false (fun _ => true) 4 (snd blocked_lazy)) = []).
Proof. repeat split; reflexivity. Qed.

(** ** Calling [load] twice *)

(** When the first pass applies its element, the second pass finds nothing
    to do: no event is added to the trace and nothing is applied. *)
Lemma second_pass_is_idle :
  eager_pass (healthy 0 (serving [1%Z]))
    (EagerLoad.mkEngine eager_defaults true)
    (eager_pass (healthy 0 (serving [1%Z]))
       (EagerLoad.mkEngine eager_defaults true) one_img) =
  eager_pass (healthy 0 (serving [1%Z]))
    (EagerLoad.mkEngine eager_defaults true) one_img /\
  lazy_pass (healthy 0 (serving [1%Z]))
    (LazyLoad.mkEngine lazy_defaults true)
    (lazy_pass (healthy 0 (serving [1%Z]))
       (LazyLoad.mkEngine lazy_defaults true) one_img) =
  lazy_pass (healthy 0 (serving [1%Z]))
    (LazyLoad.mkEngine lazy_defaults true) one_img.
Proof. split; reflexivity. Qed.

(** An element that takes a payload is marked, and a marked element is
    not described again: neither the selector nor the guard of the
    [forEach] lets it through. *)
Lemma applied_is_marked scripts (o : DBObj) (b : Blob) (pg : Page) (e : Elem) :
  doc pg !! el o = Some e ->
  exists e', doc (applyElement scripts o (Some b) pg) !! el o = Some e' /\
             indexed e' = true.
Proof.
  intros He; unfold applyElement; simpl.
  destruct (assigns scripts (tag_of (doc pg) (el o)));
    rewrite !list_lookup_alter_eq, He; simpl; eauto.
Qed.

Lemma marked_is_skipped async_of E opt elements (d : list Elem) (i : nat)
  (e : Elem) :
  d !! i = Some e -> indexed e = true ->
  forall o, o ∈ scan async_of E opt elements d -> el o <> i.
Proof.
  intros He Hi o Ho Heq.
  apply scan_fresh in Ho as (_ & e' & He' & Hfresh).
  rewrite Heq in He'; congruence.
Qed.

(** C6. Calling [load] twice is meant to issue no network request twice.
    With one [<img data-src="a.png">], a network that serves it and a store
    that rejects writes, the first pass fetches the payload, fails to write
    it and resolves without payload; [applyElement] returns at once, so the
    element is neither assigned nor marked; the second pass scans it again
    and fetches the same locator again. Both implementations agree. *)
Theorem C6_second_load_fetches_again :
  (List.filter is_fetch
     (trace (eager_pass (put_failing (serving [1%Z]))
               (EagerLoad.mkEngine eager_defaults true)
               (eager_pass (put_failing (serving [1%Z]))
                  (EagerLoad.mkEngine eager_defaults true) one_img)).1) =
     [EvFetch "a.png"; EvFetch "a.png"] /\
   doc (eager_pass (put_failing (serving [1%Z]))
          (EagerLoad.mkEngine eager_defaults true) one_img).2 =
     [img "a.png"]) /\
  (List.filter is_fetch
     (trace (lazy_pass (put_failing (serving [1%Z]))
               (LazyLoad.mkEngine lazy_defaults true)
               (lazy_pass (put_failing (serving [1%Z]))
                  (LazyLoad.mkEngine lazy_defaults true) one_img)).1) =
     [EvFetch "a.png"; EvFetch "a.png"] /\
   doc (lazy_pass (put_failing (serving [1%Z]))
          (LazyLoad.mkEngine lazy_defaults true) one_img).2 =
     [img "a.png"]).
Proof. repeat split; reflexivity. Qed.

(** ** The order in which the resolutions settle *)

Lemma slots_settle (scripts : bool) (g : Gather) (ev : nat * Wrapped) :
  slots (settle scripts g ev) = fill (slots g) ev.
Proof.
  unfold settle, fill.
  destruct (slots g !! ev.1) as [[r|]|]; try reflexivity.
  destruct (all_filled _); reflexivity.
Qed.

Lemma slots_settle_all (scripts : bool) (evs : list (nat * Wrapped)) (g : Gather) :
  slots (settle_all scripts evs g) = foldl fill (slots g) evs.
Proof.
  unfold settle_all; revert g.
  induction evs as [|ev evs IH]; intros g; cbn [foldl]; [reflexivity|].
  rewrite IH, slots_settle; reflexivity.
Qed.

Lemma length_fill (s : list (option Wrapped)) (ev : nat * Wrapped) :
  length (fill s ev) = length s.
Proof.
  unfold fill; destruct (s !! ev.1) as [[r|]|]; try reflexivity.
  apply length_insert.
Qed.

(** A filled slot keeps its value. *)
Lemma fill_keeps (s : list (option Wrapped)) (ev : nat * Wrapped) i x :
  s !! i = Some (Some x) -> fill s ev !! i = Some (Some x).
Proof.
  intros H; unfold fill.
  destruct (s !! ev.1) as [[r|]|] eqn:Hs; try exact H.
  rewrite list_lookup_insert_ne; [exact H|].
  intros Heq; rewrite Heq in Hs; congruence.
Qed.

(** An open slot takes the value of the event that names it. *)
Lemma fill_opens (s : list (option Wrapped)) i r :
  s !! i = Some None -> fill s (i, r) !! i = Some (Some r).
Proof.
  intros H; unfold fill; simpl; rewrite H.
  apply list_lookup_insert_eq. eapply lookup_lt_Some; exact H.
Qed.

(** Whatever a slot holds in the end was brought by an event, or was there
    from the start. *)
Lemma fill_origin (s : list (option Wrapped)) (ev : nat * Wrapped) i x :
  fill s ev !! i = Some (Some x) ->
  s !! i = Some (Some x) \/ ev = (i, x).
Proof.
  unfold fill.
  destruct (s !! ev.1) as [[r|]|] eqn:Hs; auto.
  destruct (decide (ev.1 = i)) as [<-|Hne].
  - rewrite list_lookup_insert_eq by (eapply lookup_lt_Some; exact Hs).
    intros [= <-]; right; destruct ev; reflexivity.
  - rewrite list_lookup_insert_ne by exact Hne; auto.
Qed.

Lemma foldl_fill_length evs s : length (foldl fill s evs) = length s.
Proof.
  revert s; induction evs as [|ev evs IH]; intros s; simpl; [reflexivity|].
  rewrite IH; apply length_fill.
Qed.

Lemma foldl_fill_keeps evs s i x :
  s !! i = Some (Some x) -> foldl fill s evs !! i = Some (Some x).
Proof.
  revert s; induction evs as [|ev evs IH]; intros s H; simpl; [exact H|].
  apply IH, fill_keeps, H.
Qed.

Lemma foldl_fill_origin evs s i x :
  foldl fill s evs !! i = Some (Some x) ->
  s !! i = Some (Some x) \/ (i, x) ∈ evs.
Proof.
  revert s; induction evs as [|ev evs IH]; intros s H; simpl in *; [auto|].
  destruct (IH _ H) as [H1|H1].
  - destruct (fill_origin _ _ _ _ H1) as [?| ->]; [auto|].
    right; apply elem_of_cons; auto.
  - right; apply elem_of_cons; auto.
Qed.

Lemma foldl_fill_covers evs s i r :
  (i, r) ∈ evs -> (i < length s)%nat ->
  exists x, foldl fill s evs !! i = Some (Some x).
Proof.
  revert s; induction evs as [|ev evs IH]; intros s Hin Hlt; simpl.
  - apply elem_of_nil in Hin; contradiction.
  - apply elem_of_cons in Hin as [<-|Hin].
    + destruct (lookup_lt_is_Some_2 s i Hlt) as [[x|] Hs].
      * exists x; apply foldl_fill_keeps, fill_keeps, Hs.
      * exists r; apply foldl_fill_keeps, fill_opens, Hs.
    + apply IH; [exact Hin|rewrite length_fill; exact Hlt].
Qed.

Lemma elem_of_events_of (rs : list Wrapped) i r :
  (i, r) ∈ events_of rs <-> rs !! i = Some r.
Proof.
  unfold events_of; rewrite list_elem_of_lookup; split.
  - intros [j Hj]. rewrite list_lookup_imap in Hj.
    destruct (rs !! j) eqn:E; simpl in Hj; congruence.
  - intros H; exists i. rewrite list_lookup_imap, H; reflexivity.
Qed.

(** In whatever order the promises settle, the slots end up holding the
    results in the order of the promises. *)
Lemma settle_order_irrelevant (rs : list Wrapped) (evs : list (nat * Wrapped)) :
  evs ≡ₚ events_of rs ->
  foldl fill (replicate (length rs) None) evs = Some <$> rs.
Proof.
  intros Hp; apply list_eq; intros i.
  rewrite list_lookup_fmap.
  destruct (rs !! i) as [r|] eqn:Hr; simpl.
  - assert (Hin : (i, r) ∈ evs).
    { rewrite Hp; apply elem_of_events_of; exact Hr. }
    destruct (foldl_fill_covers evs (replicate (length rs) None) i r Hin)
      as [x Hx].
    { rewrite length_replicate; eapply lookup_lt_Some; exact Hr. }
    rewrite Hx; do 2 f_equal.
    destruct (foldl_fill_origin _ _ _ _ Hx) as [H0|H0].
    + apply lookup_replicate in H0 as [? _]; discriminate.
    + rewrite Hp in H0; apply elem_of_events_of in H0; congruence.
  - apply lookup_ge_None.
    rewrite foldl_fill_length, length_replicate.
    apply lookup_ge_None; exact Hr.
Qed.

(** ** The chain of handlers *)

Lemma chain_lookup (objs rest : list DBObj) (n : nat) (d : list Elem) :
  NoDup (el <$> rest) ->
  (forall i, i ∉ el <$> rest -> chain objs rest n d !! i = d !! i) /\
  (forall j o, rest !! j = Some o ->
     chain objs rest n d !! el o =
       (fun e => if Nat.leb (length objs - 1) (n + j) then e
                 else setHandlers (objs, (n + j)%nat) e) <$> d !! el o).
Proof.
  revert n d; induction rest as [|obj rest IH]; intros n d Hnd.
  - split; [reflexivity|intros j o H; discriminate].
  - rewrite fmap_cons in Hnd; apply NoDup_cons in Hnd as [Hfresh Hnd].
    assert (Hstep : forall i, i <> el obj ->
              (if Nat.leb (length objs - 1) n then d
               else alter (setHandlers (objs, n)) (el obj) d) !! i = d !! i).
    { intros i Hi; destruct (Nat.leb _ n); [reflexivity|].
      apply list_lookup_alter_ne; congruence. }
    assert (Hunf : chain objs (obj :: rest) n d =
              chain objs rest (S n)
                (if Nat.leb (length objs - 1) n then d
                 else alter (setHandlers (objs, n)) (el obj) d)).
    { simpl; destruct (Nat.leb _ n); reflexivity. }
    rewrite Hunf; clear Hunf.
    destruct (IH (S n)
                (if Nat.leb (length objs - 1) n then d
                 else alter (setHandlers (objs, n)) (el obj) d) Hnd)
      as [IH1 IH2].
    split.
    + intros i Hi; rewrite fmap_cons in Hi.
      apply not_elem_of_cons in Hi as [Hne Hi].
      rewrite IH1 by exact Hi; apply Hstep; exact Hne.
    + intros [|j] o Ho; simpl in Ho.
      * injection Ho as <-.
        rewrite IH1 by exact Hfresh.
        rewrite Nat.add_0_r.
        destruct (Nat.leb (length objs - 1) n).
        -- destruct (d !! el obj); reflexivity.
        -- apply list_lookup_alter_eq.
      * rewrite (IH2 j o Ho).
        rewrite Hstep, (Nat.add_succ_r n j); [reflexivity|].
        intros Heq; apply Hfresh; rewrite <- Heq.
        apply list_elem_of_fmap_2; eapply list_elem_of_lookup_2; exact Ho.
Qed.

Lemma chain_chained (scripts : bool) (objs : list DBObj) (d : list Elem) :
  NoDup (el <$> objs) ->
  unchained scripts objs d ->
  chained scripts objs (chain objs objs 0 d).
Proof.
  intros Hnd Hun j o Ho.
  destruct (Hun o (list_elem_of_lookup_2 _ _ _ Ho)) as (e & He & Ha & Hl & Hr).
  destruct (chain_lookup objs objs 0 d Hnd) as [_ H2].
  rewrite (H2 j o Ho), He; simpl.
  unfold handler_at.
  destruct (Nat.leb (length objs - 1) j); eexists; split; eauto.
Qed.

Lemma alter_keeps (f : Elem -> Elem) (i k : nat) (d : list Elem) (e : Elem) :
  d !! k = Some e ->
  exists e', alter f i d !! k = Some e' /\ (e' = e \/ e' = f e).
Proof.
  intros H; destruct (decide (i = k)) as [->|Hne].
  - rewrite list_lookup_alter_eq, H; simpl; eauto.
  - rewrite list_lookup_alter_ne by exact Hne; eauto.
Qed.

(** Applying an element touches neither handlers nor tags. *)
Lemma applyElement_chained scripts objs o blob pg :
  chained scripts objs (doc pg) ->
  chained scripts objs (doc (applyElement scripts o blob pg)).
Proof.
  intros Hc; unfold applyElement.
  destruct blob as [b|]; [|exact Hc]; simpl.
  intros j o' Ho'.
  destruct (Hc j o' Ho') as (e & He & Ha & Hl & Hr).
  destruct (assigns scripts (tag_of (doc pg) (el o))).
  - destruct (alter_keeps (setUrl b) (el o) _ _ _ He) as (e1 & He1 & H1).
    destruct (alter_keeps setIndexed (el o) _ _ _ He1) as (e2 & He2 & H2).
    exists e2; split; [exact He2|].
    destruct H1 as [->| ->], H2 as [->| ->]; simpl; auto.
  - destruct (alter_keeps setIndexed (el o) _ _ _ He) as (e2 & He2 & H2).
    exists e2; split; [exact He2|].
    destruct H2 as [->| ->]; simpl; auto.
Qed.

Lemma deliver_idle scripts loads fuel pg :
  loading pg = [] -> deliver scripts loads fuel pg = pg.
Proof. intros H; destruct fuel; simpl; [|rewrite H]; reflexivity. Qed.

Lemma chained_tag scripts objs d j o :
  chained scripts objs d -> objs !! j = Some o ->
  assigns scripts (tag_of d (el o)) = true.
Proof.
  intros Hc Ho; destruct (Hc j o Ho) as (e & He & Ha & _).
  unfold tag_of; rewrite He; exact Ha.
Qed.

(** Once an element of the chain is loading, the events apply the elements
    after it one by one, up to the first one without payload; whether an
    element loads or fails makes no difference. *)
Lemma deliver_chain scripts loads objs fuel : forall k o pg,
  chained scripts objs (doc pg) ->
  objs !! k = Some o ->
  loading pg = [el o] ->
  (length objs <= k + fuel)%nat ->
  applied (deliver scripts loads fuel pg) =
    (applied pg ++ (el <$> resolved_prefix (drop (S k) objs)))%list.
Proof.
  induction fuel as [|fuel IH]; intros k o pg Hc Ho Hl Hlen.
  - apply lookup_lt_Some in Ho; lia.
  - simpl; rewrite Hl.
    destruct (Hc k o Ho) as (e & He & Ha & Hon & Herr).
    assert (Hh : (if loads (el o) then onload e else onerror e) =
                 handler_at objs k)
      by (destruct (loads (el o)); assumption).
    unfold fire; simpl; rewrite He, Hh.
    unfold handler_at.
    destruct (Nat.leb (length objs - 1) k) eqn:Hlast.
    + apply Nat.leb_le in Hlast.
      rewrite deliver_idle by reflexivity; simpl.
      rewrite drop_ge by lia; simpl; rewrite app_nil_r; reflexivity.
    + apply Nat.leb_gt in Hlast.
      destruct (lookup_lt_is_Some_2 objs (S k)) as [o' Ho']; [lia|].
      rewrite Ho'.
      rewrite (drop_S _ _ _ Ho'); simpl.
      destruct (d_blob (data o')) as [b|] eqn:Hb.
      * set (pg0 := mkPage (doc pg) (applied pg) []).
        assert (Hc0 : chained scripts objs (doc pg0)) by exact Hc.
        rewrite (IH (S k) o' (applyElement scripts o' (Some b) pg0)).
        -- unfold applyElement; simpl.
           rewrite <- app_assoc; reflexivity.
        -- apply applyElement_chained; exact Hc0.
        -- exact Ho'.
        -- unfold applyElement; simpl.
           rewrite (chained_tag _ _ _ _ _ Hc Ho'); reflexivity.
        -- lia.
      * unfold applyElement.
        rewrite deliver_idle by reflexivity; simpl.
        rewrite app_nil_r; reflexivity.
Qed.

(** What [applyElements] and the events that follow apply: the elements of
    the leading descriptors that carry a payload, in their order. *)
Lemma applyElements_applies_prefix scripts loads objs pg pg' :
  NoDup (el <$> objs) ->
  unchained scripts objs (doc pg) ->
  loading pg = [] ->
  applyElements scripts objs pg = Some pg' ->
  applied (deliver scripts loads (length objs) pg') =
    (applied pg ++ (el <$> resolved_prefix objs))%list.
Proof.
  intros Hnd Hun Hl; unfold applyElements.
  destruct objs as [|o rest] eqn:Hobjs; [discriminate|].
  rewrite <- Hobjs in *.
  assert (Ho : objs !! 0%nat = Some o) by (rewrite Hobjs; reflexivity).
  rewrite Ho; intros [= <-].
  pose proof (chain_chained scripts objs (doc pg) Hnd Hun) as Hc.
  set (pg1 := mkPage (chain objs objs 0 (doc pg)) (applied pg) (loading pg)).
  assert (Hpre : resolved_prefix objs =
                 match d_blob (data o) with
                 | Some _ => o :: resolved_prefix (drop 1 objs)
                 | None => []
                 end).
  { rewrite Hobjs; simpl; rewrite drop_0; reflexivity. }
  rewrite Hpre.
  destruct (d_blob (data o)) as [b|] eqn:Hb.
  - rewrite (deliver_chain scripts loads objs (length objs) 0 o).
    + unfold applyElement; simpl. rewrite <- app_assoc; reflexivity.
    + apply applyElement_chained; exact Hc.
    + exact Ho.
    + unfold applyElement; simpl.
      rewrite (chained_tag _ _ _ _ _ Hc Ho), Hl; reflexivity.
    + lia.
  - unfold applyElement.
    rewrite deliver_idle by exact Hl; simpl.
    rewrite app_nil_r; reflexivity.
Qed.

(** X14. The ordered part of a pass, from the first settled promise to the
    last event: whatever the order in which the resolutions settle and
    whichever elements load or fail, the elements applied are those of the
    leading resolutions that carry a payload, in document order. *)
Lemma ordered_pass_applies_prefix scripts loads rs evs pg :
  evs ≡ₚ events_of rs ->
  values rs <> [] ->
  NoDup (el <$> values rs) ->
  unchained scripts (values rs) (doc pg) ->
  loading pg = [] ->
  applied (deliver scripts loads (length (values rs))
             (page (settle_all scripts evs (start (length rs) pg)))) =
    (applied pg ++ (el <$> resolved_prefix (values rs)))%list.
Proof.
  intros Hp Hv Hnd Hun Hl.
  pose proof (gathered_settle_all scripts pg evs _
                (gathered_start scripts pg (length rs))) as Hg.
  unfold gathered in Hg.
  rewrite slots_settle_all in Hg; simpl in Hg.
  rewrite (settle_order_irrelevant rs evs Hp) in Hg.
  assert (Hf : all_filled (Some <$> rs) = Some rs).
  { unfold all_filled; apply mapM_Some, Forall2_fmap_l.
    apply Forall2_same_length_lookup; split; [reflexivity|].
    intros i x y Hx Hy; simpl; congruence. }
  rewrite Hf in Hg; rewrite Hg.
  destruct (applyElements scripts (values rs) pg) as [pg'|] eqn:Ha; simpl.
  - apply applyElements_applies_prefix; assumption.
  - exfalso; unfold applyElements in Ha.
    destruct (values rs); [congruence|discriminate].
Qed.

(** ** The records of the store *)

Lemma written_dataOf (s : gmap string Data) (obj : DBObj) (b : Blob) :
  written s -> written (<[ key obj := dataOf obj (Some b) ]> s).
Proof.
  intros Hs k d Hk.
  apply lookup_insert_Some in Hk as [[<- <-]|[_ Hk]]; [|exact (Hs k d Hk)].
  simpl; eauto.
Qed.

Lemma written_delete (s : gmap string Data) (k : string) :
  written s -> written (delete k s).
Proof.
  intros Hs k' d Hk.
  apply lookup_delete_Some in Hk as [_ Hk]; exact (Hs k' d Hk).
Qed.

Lemma written_subseteq (s s' : gmap string Data) :
  s' ⊆ s -> written s -> written s'.
Proof.
  intros Hsub Hs k d Hk.
  apply (Hs k d), (lookup_weaken _ _ _ _ Hk Hsub).
Qed.

Ltac written_cases :=
  repeat case_match; simplify_eq; simpl;
  eauto using written_dataOf, written_delete.

Lemma resolution_written (E : Env) (db : bool) (obj : DBObj) (w : World) :
  written (store w) ->
  written (store (snd (Eager._getObject E db obj w))) /\
  written (store (snd (Lazy.getObject E db obj w))).
Proof.
  intros Hs; split.
  - unfold Eager._getObject, Eager._getDBblob, Eager._fetchObject,
      Eager.deleteKey, Eager._store.
    written_cases.
  - unfold Lazy.getObject, Lazy.getDBblob, Lazy.get, Lazy.fetchObject,
      Lazy.set, Lazy.deleteKey.
    written_cases.
Qed.

(** X1. Resolution keeps the store well formed, whatever the faults of the
    store and of the network: if every record carries its key, a payload
    and a hash before [getObject], so does every record after it, in both
    implementations. *)
Theorem X1_resolution_keeps_records_written (E : Env) (db : bool)
  (obj : DBObj) (w : World) :
  written (store w) ->
  written (store (snd (Eager._getObject E db obj w))) /\
  written (store (snd (Lazy.getObject E db obj w))).
Proof. apply resolution_written. Qed.

Lemma X1_resolution_keeps_records_written_witness :
  written (store (snd (Eager._getObject (healthy 0 (serving [1%Z])) true
                         obj_a empty_world))) /\
  written (store (snd (Lazy.getObject (healthy 0 (serving [1%Z])) true
                         obj_a empty_world))).
Proof.
  apply (X1_resolution_keeps_records_written (healthy 0 (serving [1%Z])) true
           obj_a empty_world).
  intros k d Hk; simpl in Hk; rewrite lookup_empty in Hk; discriminate.
Defined.

Ltac frame_cases Hs Hne :=
  repeat case_match; simplify_eq; simpl in *;
  repeat match goal with
         | H : store _ !! _ = Some _ |- _ =>
             let Hk := fresh "Hk" in
             pose proof (Hs _ _ H) as (Hk & _ & _); clear H
         end;
  simplify_eq;
  rewrite ?lookup_insert_ne, ?lookup_delete_ne by congruence;
  try reflexivity.

Lemma resolution_frame (E : Env) (db : bool) (obj : DBObj) (w : World)
  (k : string) :
  written (store w) ->
  k <> key obj ->
  store (snd (Eager._getObject E db obj w)) !! k = store w !! k /\
  store (snd (Lazy.getObject E db obj w)) !! k = store w !! k.
Proof.
  intros Hs Hne; split.
  - unfold Eager._getObject, Eager._getDBblob, Eager._fetchObject,
      Eager.deleteKey, Eager._store.
    frame_cases Hs Hne.
  - unfold Lazy.getObject, Lazy.getDBblob, Lazy.get, Lazy.fetchObject,
      Lazy.set, Lazy.deleteKey.
    frame_cases Hs Hne.
Qed.

(** X2. Resolution touches the record of its own key only: on a well-formed
    store, the record stored under any other key is the same before and
    after [getObject], whatever the faults, in both implementations. *)
Theorem X2_resolution_frames_other_keys (E : Env) (db : bool) (obj : DBObj)
  (w : World) (k : string) :
  written (store w) ->
  k <> key obj ->
  store (snd (Eager._getObject E db obj w)) !! k = store w !! k /\
  store (snd (Lazy.getObject E db obj w)) !! k = store w !! k.
Proof. apply resolution_frame. Qed.

Lemma written_world_h0 : written (store world_h0).
Proof.
  intros k d Hk; simpl in Hk.
  apply lookup_singleton_Some in Hk as [<- <-]; simpl; eauto.
Qed.

Lemma X2_resolution_frames_other_keys_witness :
  store (snd (Eager._getObject (healthy 0 (serving [1%Z])) true obj_b
                world_h0)) !! "a" = store world_h0 !! "a" /\
  store (snd (Lazy.getObject (healthy 0 (serving [1%Z])) true obj_b
                world_h0)) !! "a" = store world_h0 !! "a".
Proof.
  apply (X2_resolution_frames_other_keys (healthy 0 (serving [1%Z])) true
           obj_b world_h0 "a" written_world_h0).
  simpl; congruence.
Defined.

(** ** Resolving twice *)

Lemma hash_of_dataOf obj b : hash_differs (dataOf obj b) obj = false.
Proof. unfold hash_differs; simpl; rewrite String.eqb_refl; reflexivity. Qed.

Lemma fresh_not_expired E obj b : fresh E obj -> expired E (dataOf obj b) = false.
Proof.
  unfold fresh, expired; simpl.
  destruct (expiry obj); [intros H; apply Z.ltb_ge; exact H|reflexivity].
Qed.

(** The lookup serves the record it finds when the two checks pass. *)
Lemma eager_hit E obj w d :
  reads_ok E (key obj) ->
  store w !! key obj = Some d ->
  truthy (hash obj) && hash_differs d obj = false ->
  expired E d = false ->
  Eager._getObject E true obj w =
    (Fulfilled (withData obj d), emit (EvGet (key obj)) w).
Proof.
  intros [Htx Hget] Hs Hh He.
  unfold Eager._getObject, Eager._getDBblob, Eager._store; simpl.
  rewrite Htx, Hget, Hs, Hh, He; reflexivity.
Qed.

Lemma lazy_hit E obj w d :
  reads_ok E (key obj) ->
  store w !! key obj = Some d ->
  otruthy (d_key d) = true ->
  truthy (hash obj) && hash_differs d obj = false ->
  expired E d = false ->
  Lazy.getObject E true obj w =
    (Fulfilled (withData obj d), emit (EvGet (key obj)) w).
Proof.
  intros [Htx Hget] Hs Hk Hh He.
  unfold Lazy.getObject, Lazy.getDBblob, Lazy.get, Lazy.usable; simpl.
  rewrite Htx, Hget; simpl; rewrite Hs, Hk, Hh, He; reflexivity.
Qed.

(** What a resolution that yields a payload leaves in the store. *)
Lemma eager_payload_is_stored E obj w d :
  fresh E obj ->
  fst (Eager._getObject E true obj w) = Fulfilled (withData obj d) ->
  is_Some (d_blob d) ->
  store (snd (Eager._getObject E true obj w)) !! key obj = Some d /\
  truthy (hash obj) && hash_differs d obj = false /\
  expired E d = false.
Proof.
  intros Hf.
  unfold Eager._getObject, Eager._getDBblob, Eager._fetchObject,
    Eager.deleteKey, Eager._store.
  repeat case_match; simplify_eq; simpl; intros Hr Hb; simplify_eq;
    try (destruct Hb; discriminate);
    rewrite ?lookup_insert_eq, ?hash_of_dataOf, ?andb_false_r,
      ?fresh_not_expired by assumption;
    auto.
Qed.

Lemma lazy_payload_is_stored E obj w d :
  fresh E obj ->
  truthy (key obj) = true ->
  fst (Lazy.getObject E true obj w) = Fulfilled (withData obj d) ->
  is_Some (d_blob d) ->
  store (snd (Lazy.getObject E true obj w)) !! key obj = Some d /\
  otruthy (d_key d) = true /\
  truthy (hash obj) && hash_differs d obj = false /\
  expired E d = false.
Proof.
  intros Hf Hk.
  unfold Lazy.getObject, Lazy.getDBblob, Lazy.get, Lazy.fetchObject,
    Lazy.set, Lazy.deleteKey.
  repeat case_match; simplify_eq; simpl; intros Hr Hb; simplify_eq;
    try (destruct Hb; discriminate);
    rewrite ?lookup_insert_eq, ?hash_of_dataOf, ?andb_false_r,
      ?fresh_not_expired by assumption;
    simpl; rewrite ?Hk; auto.
  repeat split; try assumption.
  apply negb_false_iff; assumption.
Qed.

(** X3. A resolution that yields a payload can be repeated: when the store
    answers lookups and the expiry of the descriptor is not in the past,
    resolving the same descriptor again right after serves the very same
    record from the store, with one lookup and no fetch, no write and no
    deletion. The lazy implementation needs a non-empty key for this. *)
Theorem X3_resolution_is_repeatable (E : Env) (obj : DBObj) (w : World)
  (d : Data) :
  reads_ok E (key obj) ->
  fresh E obj ->
  is_Some (d_blob d) ->
  (fst (Eager._getObject E true obj w) = Fulfilled (withData obj d) ->
   Eager._getObject E true obj (snd (Eager._getObject E true obj w)) =
     (Fulfilled (withData obj d),
      emit (EvGet (key obj)) (snd (Eager._getObject E true obj w)))) /\
  (truthy (key obj) = true ->
   fst (Lazy.getObject E true obj w) = Fulfilled (withData obj d) ->
   Lazy.getObject E true obj (snd (Lazy.getObject E true obj w)) =
     (Fulfilled (withData obj d),
      emit (EvGet (key obj)) (snd (Lazy.getObject E true obj w)))).
Proof.
  intros Hr Hf Hb; split.
  - intros H1.
    destruct (eager_payload_is_stored E obj w d Hf H1 Hb) as (Hs & Hh & He).
    apply eager_hit; assumption.
  - intros Hk H1.
    destruct (lazy_payload_is_stored E obj w d Hf Hk H1 Hb)
      as (Hs & Hkd & Hh & He).
    apply lazy_hit; assumption.
Qed.

Lemma X3_resolution_is_repeatable_witness :
  Eager._getObject (healthy 0 (serving [1%Z])) true obj_a
    (snd (Eager._getObject (healthy 0 (serving [1%Z])) true obj_a
            empty_world)) =
  (Fulfilled (withData obj_a (dataOf obj_a (Some [1%Z]))),
   emit (EvGet "a")
     (snd (Eager._getObject (healthy 0 (serving [1%Z])) true obj_a
             empty_world))).
Proof.
  apply (proj1 (X3_resolution_is_repeatable (healthy 0 (serving [1%Z])) obj_a
                  empty_world (dataOf obj_a (Some [1%Z]))
                  (conj eq_refl eq_refl) I (ex_intro _ [1%Z] eq_refl))).
  reflexivity.
Defined.

(** ** Stale records and failed fetches *)

(** X4. What becomes of a stale record when the fetch that should replace
    it fails. A record whose hash matches and whose expiry has elapsed is
    deleted by the lookup itself, so the store no longer holds the key (the
    lazy implementation does so for a non-empty key only). A record whose
    hash differs is never deleted, even when it has expired as well: it
    stays in the store as it was. In both cases resolution fulfils with the
    record without payload. *)
Theorem X4_stale_record_after_failed_fetch (E : Env) (obj : DBObj) (w : World)
  (d : Data) :
  stored_under (store w) (key obj) d ->
  reads_ok E (key obj) ->
  fetch_fails E (src obj) ->
  (d_hash d = Some (hash obj) -> elapsed E d -> del_err E (key obj) = false ->
   (fst (Eager._getObject E true obj w) =
      Fulfilled (withData obj (dataOf obj None)) /\
    store (snd (Eager._getObject E true obj w)) !! key obj = None) /\
   (truthy (key obj) = true ->
    fst (Lazy.getObject E true obj w) =
      Fulfilled (withData obj (dataOf obj None)) /\
    store (snd (Lazy.getObject E true obj w)) !! key obj = None)) /\
  (truthy (hash obj) = true -> d_hash d <> Some (hash obj) ->
   (fst (Eager._getObject E true obj w) =
      Fulfilled (withData obj (dataOf obj None)) /\
    store (snd (Eager._getObject E true obj w)) !! key obj = Some d) /\
   (fst (Lazy.getObject E true obj w) =
      Fulfilled (withData obj (dataOf obj None)) /\
    store (snd (Lazy.getObject E true obj w)) !! key obj = Some d)).
Proof.
  intros [Hs Hk] [Htx Hget] Hfail.
  split.
  - intros Hh He Hdel.
    assert (Hdiff : hash_differs d obj = false).
    { unfold hash_differs; rewrite Hh, String.eqb_refl; reflexivity. }
    pose proof (elapsed_expired E d He) as Hexp.
    split.
    + unfold Eager._getObject, Eager._getDBblob, Eager._fetchObject,
        Eager.deleteKey, Eager._store; simpl.
      rewrite Htx, Hget, Hs, Hdiff, Hexp, Hk, Hdel, andb_false_r; simpl.
      destruct Hfail as [->|[body ->]]; simpl;
        (split; [reflexivity|apply lookup_delete_eq]).
    + intros Hne.
      unfold Lazy.getObject, Lazy.getDBblob, Lazy.get, Lazy.fetchObject,
        Lazy.deleteKey, Lazy.usable; simpl.
      rewrite Htx, Hget; simpl.
      rewrite Hs, Hk; simpl.
      rewrite Hne, Hdiff, Hexp, andb_false_r; simpl.
      rewrite ?Htx, ?Hdel; simpl.
      destruct Hfail as [->|[body ->]]; simpl;
        (split; [reflexivity|apply lookup_delete_eq]).
  - intros Ht Hh.
    pose proof (mismatch_differs d obj Hh) as Hdiff.
    split.
    + unfold Eager._getObject, Eager._getDBblob, Eager._fetchObject,
        Eager._store; simpl.
      rewrite Htx, Hget, Hs, Hdiff, Ht; simpl.
      destruct Hfail as [->|[body ->]]; simpl; auto.
    + unfold Lazy.getObject, Lazy.getDBblob, Lazy.get, Lazy.fetchObject,
        Lazy.usable; simpl.
      rewrite Htx, Hget; simpl.
      rewrite Hs, Hdiff, Ht; simpl.
      destruct (negb (otruthy (d_key d))); simpl;
        destruct Hfail as [->|[body ->]]; simpl; auto.
Qed.

Lemma X4_stale_record_after_failed_fetch_witness :
  store (snd (Eager._getObject (healthy 10 not_found) true obj_a world_old))
    !! "a" = None /\
  store (snd (Eager._getObject (healthy 10 not_found) true obj_a world_h0))
    !! "a" = Some (mkData (Some "a") (Some [7%Z]) (Some "h0") None).
Proof.
  split.
  - refine (proj2 (proj1 (proj1
      (X4_stale_record_after_failed_fetch (healthy 10 not_found) obj_a
         world_old rec_old _ _ _) _ _ _))).
    + split; reflexivity.
    + split; reflexivity.
    + right; exists None; reflexivity.
    + reflexivity.
    + reflexivity.
    + reflexivity.
  - refine (proj2 (proj1 (proj2
      (X4_stale_record_after_failed_fetch (healthy 10 not_found) obj_a
         world_h0 (mkData (Some "a") (Some [7%Z]) (Some "h0") None) _ _ _)
      _ _))).
    + split; reflexivity.
    + split; reflexivity.
    + right; exists None; reflexivity.
    + reflexivity.
    + simpl; congruence.
Defined.

(** ** What pruning never does *)

Lemma prune_step_lookup E db keyMap w a k :
  store (Eager.prune_step E db keyMap w a) !! k = store w !! k \/
  (store (Eager.prune_step E db keyMap w a) !! k = None /\
   in_keyMap keyMap k = false).
Proof.
  unfold Eager.prune_step, Eager.deleteKey, Eager._store.
  destruct (in_keyMap keyMap a) eqn:Ha; [auto|].
  repeat case_match; simplify_eq; simpl; auto.
  destruct (decide (a = k)) as [->|Hne].
  - right; split; [apply lookup_delete_eq|exact Ha].
  - left; apply lookup_delete_ne; exact Hne.
Qed.

Lemma prune_sweep_lookup E db keyMap l : forall w k,
  store (foldl (Eager.prune_step E db keyMap) w l) !! k = store w !! k \/
  (store (foldl (Eager.prune_step E db keyMap) w l) !! k = None /\
   in_keyMap keyMap k = false).
Proof.
  induction l as [|a l IH]; intros w k; simpl; [auto|].
  destruct (IH (Eager.prune_step E db keyMap w a) k) as [H|H]; [|auto].
  rewrite H; apply prune_step_lookup.
Qed.

Lemma eager_prune_safe E db ks w w' :
  Eager._prune E db ks w = Some w' ->
  forall k, store w' !! k = store w !! k \/
            (store w' !! k = None /\ in_keyMap (keyMap_of ks) k = false).
Proof.
  unfold Eager._prune, Eager._store.
  repeat case_match; simplify_eq; intros [= <-] k; simpl; auto.
  apply (prune_sweep_lookup E _ (keyMap_of ks) _ (emit EvKeys w) k).
Qed.

Lemma lazy_prune_safe E ok ks w :
  forall k, store (snd (Lazy.prune E ok ks w)) !! k = store w !! k \/
            (store (snd (Lazy.prune E ok ks w)) !! k = None /\
             in_keyMap (keyMap_of ks) k = false).
Proof.
  intros k; unfold Lazy.prune, Lazy.keys, Lazy.delMany.
  repeat case_match; simplify_eq; simpl; auto;
    rewrite ?store_after_emits; simpl; auto.
  rewrite sweep_lookup, ?store_after_emits; simpl.
  case_bool_decide as Hin; [|auto].
  right; split; [reflexivity|].
  apply list_elem_of_In, filter_In in Hin as [_ Hin].
  apply negb_true_iff; exact Hin.
Qed.

Lemma lazy_prune_rejected E ok ks w e :
  fst (Lazy.prune E ok ks w) = Rejected e ->
  store (snd (Lazy.prune E ok ks w)) = store w.
Proof.
  unfold Lazy.prune, Lazy.keys, Lazy.delMany.
  repeat case_match; simplify_eq; simpl; intros; simplify_eq;
    rewrite ?store_after_emits; reflexivity.
Qed.

(** X5. Pruning is safe whatever fails. The store after [prune] is a
    subset of the store before it: no record is added or altered. No key of
    the given list is ever deleted. And when the lazy [prune] rejects, the
    store is exactly as it was: its deletions share one transaction. *)
Theorem X5_prune_spares_live_keys (E : Env) (db : bool) (ks : list string)
  (w : World) :
  (forall w', EagerOps.prune E db ks w = Some w' ->
     store w' ⊆ store w /\
     forall k, k ∈ ks -> store w' !! k = store w !! k) /\
  (store (snd (Lazy.prune E db ks w)) ⊆ store w /\
   (forall k, k ∈ ks ->
      store (snd (Lazy.prune E db ks w)) !! k = store w !! k) /\
   (forall e, fst (Lazy.prune E db ks w) = Rejected e ->
      store (snd (Lazy.prune E db ks w)) = store w)).
Proof.
  split; [intros w' Hp|]; repeat split.
  - apply map_subseteq_spec; intros k d Hk.
    destruct (eager_prune_safe E db ks w w' Hp k) as [H|[H _]]; congruence.
  - intros k Hk.
    destruct (eager_prune_safe E db ks w w' Hp k) as [H|[_ H]]; [exact H|].
    assert (in_keyMap (keyMap_of ks) k = true)
      by (apply in_keyMap_spec; auto).
    congruence.
  - apply map_subseteq_spec; intros k d Hk.
    destruct (lazy_prune_safe E db ks w k) as [H|[H _]]; congruence.
  - intros k Hk.
    destruct (lazy_prune_safe E db ks w k) as [H|[_ H]]; [exact H|].
    assert (in_keyMap (keyMap_of ks) k = true)
      by (apply in_keyMap_spec; auto).
    congruence.
  - apply lazy_prune_rejected.
Qed.

(** X6. The result of pruning, and pruning again. When the keys can be
    listed, a stored key survives [prune] exactly when it counts as live
    (it was given, or it names a property of [Object.prototype]) or, in the
    eager implementation, when its delete request fails; surviving records
    are untouched. Pruning a second time with the same keys changes
    nothing. *)
Theorem X6_prune_exact_and_idempotent (E : Env) (ks : list string) (w : World) :
  tx_throws E = false ->
  keys_err E = false ->
  (forall w1, EagerOps.prune E true ks w = Some w1 ->
     (forall k, store w1 !! k =
        if in_keyMap (keyMap_of ks) k || del_err E k then store w !! k
        else None) /\
     (forall w2, EagerOps.prune E true ks w1 = Some w2 ->
        store w2 = store w1)) /\
  ((forall k, del_err E k = false) ->
   fst (Lazy.prune E true ks w) = Fulfilled tt /\
   (forall k, store (snd (Lazy.prune E true ks w)) !! k =
      if in_keyMap (keyMap_of ks) k then store w !! k else None) /\
   store (snd (Lazy.prune E true ks (snd (Lazy.prune E true ks w)))) =
     store (snd (Lazy.prune E true ks w))).
Proof.
  intros Htx Hk; split.
  - intros w1 H1.
    destruct (eager_prune_spec E ks w Htx Hk) as (w1' & H1' & Hs1).
    unfold EagerOps.prune in *.
    assert (w1' = w1) as -> by congruence.
    split; [exact Hs1|].
    intros w2 H2.
    destruct (eager_prune_spec E ks w1 Htx Hk) as (w2' & H2' & Hs2).
    assert (w2' = w2) as -> by congruence.
    apply map_eq; intros k; rewrite Hs2, Hs1.
    destruct (in_keyMap (keyMap_of ks) k || del_err E k); reflexivity.
  - intros Hd.
    destruct (lazy_prune_spec E ks w Htx Hk Hd) as (w1 & H1 & Hs1).
    rewrite H1; simpl.
    split; [reflexivity|split; [exact Hs1|]].
    destruct (lazy_prune_spec E ks w1 Htx Hk Hd) as (w2 & H2 & Hs2).
    rewrite H2; simpl.
    apply map_eq; intros k; rewrite Hs2, Hs1.
    destruct (in_keyMap (keyMap_of ks) k); reflexivity.
Qed.

Lemma X6_prune_exact_and_idempotent_witness :
  store (snd (Lazy.prune (healthy 0 not_found) true ["k1"; "k2"]
                world_k123)) !! "k3" = None.
Proof.
  rewrite (proj1 (proj2 (proj2
    (X6_prune_exact_and_idempotent (healthy 0 not_found) ["k1"; "k2"]
       world_k123 eq_refl eq_refl) (fun _ => eq_refl))) "k3").
  reflexivity.
Defined.

(** ** The descriptors of a scan *)

Lemma omap_describe_sublist async_of E opt d (l : list nat) :
  el <$> omap (describe async_of E opt d) l `sublist_of` l.
Proof.
  induction l as [|i l IH]; simpl; [constructor|].
  destruct (describe async_of E opt d i) as [o|] eqn:Ho; simpl.
  - apply describe_fresh in Ho as (-> & _); constructor; exact IH.
  - constructor; exact IH.
Qed.

Lemma List_filter_sublist {A} (f : A -> bool) (l : list A) :
  List.filter f l `sublist_of` l.
Proof.
  induction l as [|a l IH]; simpl; [constructor|].
  destruct (f a); constructor; exact IH.
Qed.

(** X7. The descriptors of a pass follow the elements handed to it: their
    elements are a sublist of the candidates, in the same order. When the
    document is scanned with the selector, they are in document order, no
    element is described twice, and every described element has one of the
    configured tags and is not marked. *)
Theorem X7_scan_follows_the_document (async_of : Elem -> bool) (E : Env)
  (opt : Opts) (elements : option (list nat)) (d : list Elem) :
  el <$> scan async_of E opt elements d `sublist_of`
    candidates opt elements d /\
  el <$> scan async_of E opt None d `sublist_of` seq 0 (length d) /\
  NoDup (el <$> scan async_of E opt None d) /\
  (forall o, o ∈ scan async_of E opt None d ->
     exists e, d !! el o = Some e /\ selected opt e = true).
Proof.
  assert (Hsub : el <$> scan async_of E opt None d `sublist_of`
                   seq 0 (length d)).
  { etransitivity; [apply omap_describe_sublist|].
    apply List_filter_sublist. }
  split; [apply omap_describe_sublist|].
  split; [exact Hsub|].
  split; [eapply sublist_NoDup; [apply NoDup_seq|exact Hsub]|].
  intros o Ho; unfold scan in Ho.
  apply list_elem_of_omap in Ho as (i & Hi & Hd).
  apply describe_fresh in Hd as (<- & _ & e & He & _).
  exists e; split; [exact He|].
  simpl in Hi; apply list_elem_of_In, filter_In in Hi as [_ Hi].
  rewrite He in Hi; exact Hi.
Qed.

Lemma js_or_truthy (a : option string) (b : string) :
  truthy b = true -> truthy (js_or a b) = true.
Proof.
  intros Hb; unfold js_or; destruct a as [s|]; [|exact Hb].
  destruct (truthy s) eqn:Hs; [exact Hs|exact Hb].
Qed.

Lemma js_or_default (a : option string) (b : string) :
  otruthy a = false -> js_or a b = b.
Proof.
  unfold js_or, otruthy; destruct a as [s|]; [|reflexivity].
  intros ->; reflexivity.
Qed.

(** The minutes that apply to an element: its own [data-expiry], else the
    default of the options unless that is null or zero. *)
Lemma expiry_of_fresh (E : Env) (opt : Opts) (e : Elem) :
  (forall m, ds_expiry e = Some m -> (0 <= m)%Z) ->
  (forall m, opt_expiry opt = Some m -> (0 <= m)%Z) ->
  match expiry_of E opt e with
  | Some t => (now E <= t)%Z
  | None => True
  end.
Proof.
  intros He Ho; unfold expiry_of.
  destruct (ds_expiry e) as [m|]; [specialize (He m eq_refl); lia|].
  destruct (opt_expiry opt) as [m|]; [|exact I].
  destruct (Z.eqb m 0); [exact I|specialize (Ho m eq_refl); lia].
Qed.

(** X8. What a scanned descriptor carries. Its locator is the [data-src]
    of its element and its data is empty. Key and hash fall back to the
    locator when [data-key] / [data-hash] are absent or empty, so a
    non-empty locator always gives a non-empty key and a non-empty hash.
    When the minutes that apply (the element's own, else the default) are
    not negative, the expiry of the descriptor is not in the past. *)
Theorem X8_scanned_descriptor (async_of : Elem -> bool) (E : Env) (opt : Opts)
  (elements : option (list nat)) (d : list Elem) (o : DBObj) :
  o ∈ scan async_of E opt elements d ->
  exists e, d !! el o = Some e /\
    src o = ds_src e /\
    data o = emptyData /\
    (otruthy (ds_key e) = false -> key o = src o) /\
    (otruthy (ds_hash e) = false -> hash o = src o) /\
    (truthy (ds_src e) = true ->
       truthy (key o) = true /\ truthy (hash o) = true) /\
    ((forall m, ds_expiry e = Some m -> (0 <= m)%Z) ->
     (forall m, opt_expiry opt = Some m -> (0 <= m)%Z) ->
     fresh E o).
Proof.
  intros Ho; unfold scan in Ho.
  apply list_elem_of_omap in Ho as (i & _ & Hd).
  unfold describe in Hd.
  destruct (d !! i) as [e|] eqn:He; [|discriminate].
  destruct (indexed e); [discriminate|].
  injection Hd as <-; simpl.
  exists e; repeat split; auto using js_or_default, js_or_truthy.
  intros H1 H2; unfold fresh; simpl; apply expiry_of_fresh; assumption.
Qed.

Lemma X8_scanned_descriptor_witness :
  exists e, [img "a.png"] !! 0%nat = Some e /\
    "a.png" = ds_src e /\
    emptyData = emptyData /\
    (otruthy (ds_key e) = false -> "a.png" = "a.png") /\
    (otruthy (ds_hash e) = false -> "a.png" = "a.png") /\
    (truthy (ds_src e) = true ->
       truthy "a.png" = true /\ truthy "a.png" = true) /\
    ((forall m, ds_expiry e = Some m -> (0 <= m)%Z) ->
     (forall m, opt_expiry eager_defaults = Some m -> (0 <= m)%Z) ->
     fresh (healthy 0 not_found)
       (mkObj 0 "a.png" "a.png" "a.png" true (Some 7884000000%Z) emptyData)).
Proof.
  apply (X8_scanned_descriptor EagerLoad.isAsync_of (healthy 0 not_found)
           eager_defaults None [img "a.png"]
           (mkObj 0 "a.png" "a.png" "a.png" true (Some 7884000000%Z)
              emptyData)).
  apply elem_of_cons; left; reflexivity.
Defined.

(** ** How many requests a pass issues *)

Lemma eager_getObject_fetch_bound E db obj w :
  (count_fetches (trace (snd (Eager._getObject E db obj w))) <=
   S (count_fetches (trace w)))%nat /\
  (count_fetches (trace w) <=
   count_fetches (trace (snd (Eager._getObject E db obj w))))%nat.
Proof.
  unfold Eager._getObject, Eager._getDBblob, Eager._fetchObject,
    Eager.deleteKey, Eager._store.
  repeat case_match; simplify_eq; count_trace.
Qed.

Lemma lazy_getObject_fetch_bound E ok obj w :
  (count_fetches (trace (snd (Lazy.getObject E ok obj w))) <=
   S (count_fetches (trace w)))%nat /\
  (count_fetches (trace w) <=
   count_fetches (trace (snd (Lazy.getObject E ok obj w))))%nat.
Proof.
  unfold Lazy.getObject, Lazy.getDBblob, Lazy.get, Lazy.fetchObject,
    Lazy.set, Lazy.deleteKey.
  repeat case_match; simplify_eq; count_trace.
Qed.

Section DispatchCount.
Variable getObject : DBObj -> World -> Settled DBObj * World.
Variable scripts : bool.
Hypothesis getObject_bound : forall obj w,
  (count_fetches (trace (snd (getObject obj w))) <=
   S (count_fetches (trace w)))%nat.

Lemma dispatch_fetch_bound objs : forall w pg ps,
  (count_fetches (trace (dispatch getObject scripts objs w pg ps).1.1) <=
   count_fetches (trace w) + length objs)%nat.
Proof.
  induction objs as [|obj objs IH]; intros w pg ps; simpl; [lia|].
  pose proof (getObject_bound obj w) as Hb.
  destruct (getObject obj w) as [r w1]; simpl in Hb.
  destruct (isAsync obj);
    match goal with
    | |- context [dispatch _ _ _ w1 ?p ?q] => specialize (IH w1 p q)
    end; lia.
Qed.
End DispatchCount.

Lemma gather_world scripts objs ps w pg :
  (gather scripts objs ps w pg).1.2 = w.
Proof.
  unfold gather; destruct ps; [reflexivity|].
  repeat case_match; reflexivity.
Qed.

Lemma eager_sweep_fetches E db keyMap l : forall w,
  count_fetches (trace (foldl (Eager.prune_step E db keyMap) w l)) =
  count_fetches (trace w).
Proof.
  induction l as [|a l IH]; intros w; simpl; [reflexivity|].
  rewrite IH.
  unfold Eager.prune_step, Eager.deleteKey, Eager._store.
  repeat case_match; simplify_eq; count_trace.
Qed.

Lemma eager_prune_fetches E db ks w w' :
  Eager._prune E db ks w = Some w' ->
  count_fetches (trace w') = count_fetches (trace w).
Proof.
  unfold Eager._prune, Eager._store.
  repeat case_match; simplify_eq; intros [= <-];
    rewrite ?eager_sweep_fetches; count_trace.
Qed.

Lemma emits_fetches (l : list string) : forall w,
  count_fetches (trace (foldl (fun w k => emit (EvDelete k) w) w l)) =
  count_fetches (trace w).
Proof.
  induction l as [|a l IH]; intros w; simpl; [reflexivity|].
  rewrite IH; count_trace.
Qed.

Lemma lazy_prune_fetches E ok ks w :
  count_fetches (trace (snd (Lazy.prune E ok ks w))) = count_fetches (trace w).
Proof.
  unfold Lazy.prune, Lazy.keys, Lazy.delMany.
  repeat case_match; simplify_eq; simpl; rewrite ?emits_fetches; count_trace.
Qed.

(** X9. A pass never issues more than one request per descriptor: the
    number of fetches [load] adds to the trace is at most the number of
    descriptors of its scan, whatever the store and the network do, with or
    without pruning, in both implementations. *)
Theorem X9_pass_fetches_once_per_descriptor (E : Env)
  (elements : option (list nat)) (w : World) (pg : Page) :
  (forall eng,
     (count_fetches (trace (EagerLoad.load E eng elements w pg).1.2) <=
      count_fetches (trace w) +
      length (scan EagerLoad.isAsync_of E (EagerLoad.opt eng) elements
                (doc pg)))%nat) /\
  (forall eng,
     (count_fetches (trace (LazyLoad.load E eng elements w pg).1.2) <=
      count_fetches (trace w) +
      length (scan LazyLoad.isAsync_of E (LazyLoad.opt eng) elements
                (doc pg)))%nat).
Proof.
  split; intros eng.
  - unfold EagerLoad.load, EagerLoad._setupElements.
    set (objs := scan _ E (EagerLoad.opt eng) elements (doc pg)).
    destruct (negb (EagerLoad.db eng)) eqn:Hdb; simpl.
    + destruct (EagerLoad._applyElements objs pg); simpl; lia.
    + pose proof (dispatch_fetch_bound
                    (Eager._getObject E (EagerLoad.db eng)) true
                    (fun o w0 => proj1 (eager_getObject_fetch_bound E _ o w0))
                    objs w pg []) as Hd.
      destruct (dispatch _ true objs w pg []) as [[w1 pg1] ps]; simpl in Hd.
      pose proof (gather_world true objs ps w1 pg1) as Hg.
      destruct (gather true objs ps w1 pg1) as [[r w2] pg2]; simpl in Hg.
      subst w2.
      destruct r as [o|e|]; simpl; try lia.
      destruct (no_objs o); simpl; [lia|].
      destruct (opt_prune (EagerLoad.opt eng)); simpl; [|lia].
      destruct (Eager._prune E (EagerLoad.db eng) _ w1) as [w2|] eqn:Hp;
        simpl; [|lia].
      rewrite (eager_prune_fetches _ _ _ _ _ Hp); lia.
  - unfold LazyLoad.load, LazyLoad.setupElements.
    set (objs := scan _ E (LazyLoad.opt eng) elements (doc pg)).
    pose proof (dispatch_fetch_bound
                  (Lazy.getObject E (LazyLoad.dbp_ok eng)) false
                  (fun o w0 => proj1 (lazy_getObject_fetch_bound E _ o w0))
                  objs w pg []) as Hd.
    destruct (dispatch _ false objs w pg []) as [[w1 pg1] ps]; simpl in Hd.
    pose proof (gather_world false objs ps w1 pg1) as Hg.
    destruct (gather false objs ps w1 pg1) as [[r w2] pg2]; simpl in Hg.
    subst w2.
    destruct r as [o|e|]; simpl; try lia.
    destruct (no_objs o); simpl; [lia|].
    destruct (opt_prune (LazyLoad.opt eng)); simpl; [|lia].
    pose proof (lazy_prune_fetches E (LazyLoad.dbp_ok eng)
                  (List.map key (default [] o)) w1) as Hp.
    destruct (Lazy.prune E _ _ w1) as [[?|?|] w2]; simpl in *; lia.
Qed.

(** ** Which records a pass touches *)

Section DispatchFrame.
Variable getObject : DBObj -> World -> Settled DBObj * World.
Variable scripts : bool.
Hypothesis getObject_written : forall obj w,
  written (store w) -> written (store (snd (getObject obj w))).
Hypothesis getObject_frame : forall obj w k,
  written (store w) -> k <> key obj ->
  store (snd (getObject obj w)) !! k = store w !! k.

Lemma dispatch_frame objs : forall w pg ps,
  written (store w) ->
  written (store (dispatch getObject scripts objs w pg ps).1.1) /\
  forall k, k ∉ key <$> objs ->
    store (dispatch getObject scripts objs w pg ps).1.1 !! k = store w !! k.
Proof.
  induction objs as [|obj objs IH]; intros w pg ps Hw; simpl; [auto|].
  pose proof (getObject_written obj w Hw) as Hw1.
  pose proof (getObject_frame obj w) as Hf.
  destruct (getObject obj w) as [r w1]; simpl in *.
  destruct (isAsync obj);
    match goal with
    | |- context [dispatch _ _ _ w1 ?p ?q] =>
        destruct (IH w1 p q Hw1) as [IH1 IH2]
    end;
    (split; [exact IH1|]);
    intros k Hk; apply not_elem_of_cons in Hk as [Hne Hk];
    rewrite IH2 by exact Hk; apply Hf; assumption.
Qed.
End DispatchFrame.

(** X10. A pass keeps the store well formed and, with pruning off, touches
    only the records of its own descriptors: a record stored under a key
    that no descriptor of the scan uses is the same before and after
    [load], whatever the faults, in both implementations. *)
Theorem X10_pass_frames_other_keys (E : Env) (elements : option (list nat))
  (w : World) (pg : Page) :
  written (store w) ->
  (forall eng,
     written (store (EagerLoad.load E eng elements w pg).1.2) /\
     (opt_prune (EagerLoad.opt eng) = false ->
      forall k,
        k ∉ key <$> scan EagerLoad.isAsync_of E (EagerLoad.opt eng) elements
                      (doc pg) ->
        store (EagerLoad.load E eng elements w pg).1.2 !! k = store w !! k)) /\
  (forall eng,
     written (store (LazyLoad.load E eng elements w pg).1.2) /\
     (opt_prune (LazyLoad.opt eng) = false ->
      forall k,
        k ∉ key <$> scan LazyLoad.isAsync_of E (LazyLoad.opt eng) elements
                      (doc pg) ->
        store (LazyLoad.load E eng elements w pg).1.2 !! k = store w !! k)).
Proof.
  intros Hw; split; intros eng.
  - unfold EagerLoad.load, EagerLoad._setupElements.
    set (objs := scan _ E (EagerLoad.opt eng) elements (doc pg)).
    destruct (negb (EagerLoad.db eng)) eqn:Hdb; simpl.
    + destruct (EagerLoad._applyElements objs pg); simpl; auto.
    + destruct (dispatch_frame (Eager._getObject E (EagerLoad.db eng)) true
                  (fun o w0 H =>
                     proj1 (resolution_written E _ o w0 H))
                  (fun o w0 k H1 H2 =>
                     proj1 (resolution_frame E _ o w0 k H1 H2))
                  objs w pg [] Hw) as [Hw1 Hf].
      destruct (dispatch _ true objs w pg []) as [[w1 pg1] ps]; simpl in *.
      pose proof (gather_world true objs ps w1 pg1) as Hg.
      destruct (gather true objs ps w1 pg1) as [[r w2] pg2]; simpl in Hg.
      subst w2.
      destruct r as [o|e|]; simpl; auto.
      destruct (no_objs o); simpl; auto.
      destruct (opt_prune (EagerLoad.opt eng)); simpl; auto.
      destruct (Eager._prune E (EagerLoad.db eng) _ w1) as [w2|] eqn:Hp;
        simpl; auto.
      split; [|discriminate].
      eapply written_subseteq; [|exact Hw1].
      apply map_subseteq_spec; intros k d Hk.
      destruct (eager_prune_safe _ _ _ _ _ Hp k) as [H|[H _]]; congruence.
  - unfold LazyLoad.load, LazyLoad.setupElements.
    set (objs := scan _ E (LazyLoad.opt eng) elements (doc pg)).
    destruct (dispatch_frame (Lazy.getObject E (LazyLoad.dbp_ok eng)) false
                (fun o w0 H =>
                   proj2 (resolution_written E _ o w0 H))
                (fun o w0 k H1 H2 =>
                   proj2 (resolution_frame E _ o w0 k H1 H2))
                objs w pg [] Hw) as [Hw1 Hf].
    destruct (dispatch _ false objs w pg []) as [[w1 pg1] ps]; simpl in *.
    pose proof (gather_world false objs ps w1 pg1) as Hg.
    destruct (gather false objs ps w1 pg1) as [[r w2] pg2]; simpl in Hg.
    subst w2.
    destruct r as [o|e|]; simpl; auto.
    destruct (no_objs o); simpl; auto.
    destruct (opt_prune (LazyLoad.opt eng)); simpl; auto.
    pose proof (lazy_prune_safe E (LazyLoad.dbp_ok eng)
                  (List.map key (default [] o)) w1) as Hp.
    destruct (Lazy.prune E _ _ w1) as [[?|?|] w2]; simpl in *;
      (split; [|discriminate]);
      (eapply written_subseteq; [|exact Hw1]);
      apply map_subseteq_spec; intros k d Hk;
      destruct (Hp k) as [H|[H _]]; congruence.
Qed.

Lemma X10_pass_frames_other_keys_witness :
  store (EagerLoad.load (healthy 0 (serving [1%Z]))
           (EagerLoad.mkEngine eager_defaults true) None world_h0
           (page_of [img "b.png"])).1.2 !! "a" = store world_h0 !! "a".
Proof.
  apply (proj1 (X10_pass_frames_other_keys (healthy 0 (serving [1%Z])) None
                  world_h0 (page_of [img "b.png"]) written_world_h0)
           (EagerLoad.mkEngine eager_defaults true)).
  - reflexivity.
  - intros Hin; apply elem_of_cons in Hin as [Hin|Hin]; [discriminate|].
    apply elem_of_nil in Hin; exact Hin.
Defined.

Lemma gather_objs scripts objs ps w pg r w' pg' :
  gather scripts objs ps w pg = (Fulfilled r, w', pg') -> r = Some objs.
Proof.
  unfold gather; destruct ps; [intros [= <- _ _]; reflexivity|].
  repeat case_match; intros; simplify_eq; reflexivity.
Qed.

(** X11. Automatic pruning never deletes an asset of the page: for every
    key used by a descriptor of the scan, the record the store holds after
    [load] is the one it held when the elements were set up, whether
    pruning is on or off and whatever fails, in both implementations. *)
Theorem X11_auto_prune_keeps_page_assets (E : Env)
  (elements : option (list nat)) (w : World) (pg : Page) :
  (forall eng k,
     k ∈ List.map key
           (scan EagerLoad.isAsync_of E (EagerLoad.opt eng) elements (doc pg)) ->
     store (EagerLoad.load E eng elements w pg).1.2 !! k =
     store (EagerLoad._setupElements E eng elements w pg).1.2 !! k) /\
  (forall eng k,
     k ∈ List.map key
           (scan LazyLoad.isAsync_of E (LazyLoad.opt eng) elements (doc pg)) ->
     store (LazyLoad.load E eng elements w pg).1.2 !! k =
     store (LazyLoad.setupElements E eng elements w pg).1.2 !! k).
Proof.
  split; intros eng k Hk.
  - unfold EagerLoad.load.
    destruct (EagerLoad._setupElements E eng elements w pg)
      as [[r w1] pg1] eqn:Hs; simpl.
    destruct r as [o|e|]; simpl; try reflexivity.
    destruct (negb (EagerLoad.db eng)) eqn:Hdb; simpl; [reflexivity|].
    destruct (no_objs o); simpl; [reflexivity|].
    destruct (opt_prune (EagerLoad.opt eng)); simpl; [|reflexivity].
    destruct (Eager._prune E (EagerLoad.db eng) _ w1) as [w2|] eqn:Hp;
      simpl; [|reflexivity].
    destruct (eager_prune_safe _ _ _ _ _ Hp k) as [H|[_ H]]; [exact H|].
    unfold EagerLoad._setupElements in Hs; rewrite Hdb in Hs.
    destruct (dispatch _ true _ w pg []) as [[w1' pg1'] ps].
    apply gather_objs in Hs as ->; simpl in H.
    assert (in_keyMap (keyMap_of (List.map key
              (scan EagerLoad.isAsync_of E (EagerLoad.opt eng) elements
                 (doc pg)))) k = true)
      by (apply in_keyMap_spec; auto).
    congruence.
  - unfold LazyLoad.load.
    destruct (LazyLoad.setupElements E eng elements w pg)
      as [[r w1] pg1] eqn:Hs; simpl.
    destruct r as [o|e|]; simpl; try reflexivity.
    destruct (no_objs o); simpl; [reflexivity|].
    destruct (opt_prune (LazyLoad.opt eng)); simpl; [|reflexivity].
    pose proof (lazy_prune_safe E (LazyLoad.dbp_ok eng)
                  (List.map key (default [] o)) w1 k) as Hp.
    unfold LazyLoad.setupElements in Hs.
    destruct (dispatch _ false _ w pg []) as [[w1' pg1'] ps].
    apply gather_objs in Hs as ->; simpl in Hp.
    assert (in_keyMap (keyMap_of (List.map key
              (scan LazyLoad.isAsync_of E (LazyLoad.opt eng) elements
                 (doc pg)))) k = true)
      by (apply in_keyMap_spec; auto).
    destruct (Lazy.prune E _ _ w1) as [[?|?|] w2]; simpl in *;
      destruct Hp as [Hp|[_ Hp]]; congruence.
Qed.

(** ** A pass over async elements in a healthy environment *)




Section DispatchAsync.
Variable getObject : DBObj -> World -> Settled DBObj * World.
Variable scripts : bool.
Hypothesis getObject_payload : forall obj w,
  written (store w) ->
  written (store (snd (getObject obj w))) /\
  exists d b, fst (getObject obj w) = Fulfilled (withData obj d) /\
              d_blob d = Some b.

End DispatchAsync.













(** ** [allSettled] and the order of its results *)

(** X13. [allSettled] hands the results over in the order of the promises,
    whatever the order in which they settle: when no promise stays pending
    and each settles once, the slots end up holding exactly what
    [allSettled] returns, and the page is the one [applyElements] makes of
    the fulfilled values in that order. *)
Theorem X13_allSettled_keeps_promise_order (scripts : bool)
  (promises : list (Settled DBObj)) (rs : list Wrapped)
  (evs : list (nat * Wrapped)) (pg : Page) :
  allSettled promises = Some rs ->
  evs ≡ₚ events_of rs ->
  length rs = length promises /\
  all_filled (slots (settle_all scripts evs (start (length promises) pg))) =
    allSettled promises /\
  page (settle_all scripts evs (start (length promises) pg)) =
    default pg (applyElements scripts (values rs) pg).
Proof.
  intros Hall Hp.
  assert (Hlen : length rs = length promises).
  { symmetry; eapply length_mapM; exact Hall. }
  assert (Hf : all_filled (Some <$> rs) = Some rs).
  { unfold all_filled; apply mapM_Some, Forall2_fmap_l.
    apply Forall2_same_length_lookup; split; [reflexivity|].
    intros i x y Hx Hy; simpl; congruence. }
  pose proof (gathered_settle_all scripts pg evs _
                (gathered_start scripts pg (length promises))) as Hg.
  unfold gathered in Hg.
  rewrite slots_settle_all in *; simpl in *.
  rewrite <- Hlen in *.
  rewrite (settle_order_irrelevant rs evs Hp) in *.
  rewrite Hf in Hg; rewrite Hf, Hall; auto.
Qed.

Lemma X13_allSettled_keeps_promise_order_witness :
  length [WFulfilled res_a; WFulfilled res_b] =
    length [Fulfilled res_a; Fulfilled res_b] /\
  all_filled (slots (settle_all true
                       [(1%nat, WFulfilled res_b); (0%nat, WFulfilled res_a)]
                       (start (length [Fulfilled res_a; Fulfilled res_b])
                          two_scripts))) =
    allSettled [Fulfilled res_a; Fulfilled res_b] /\
  page (settle_all true
          [(1%nat, WFulfilled res_b); (0%nat, WFulfilled res_a)]
          (start (length [Fulfilled res_a; Fulfilled res_b]) two_scripts)) =
    default two_scripts
      (applyElements true (values [WFulfilled res_a; WFulfilled res_b])
         two_scripts).
Proof.
  apply (X13_allSettled_keeps_promise_order true
           [Fulfilled res_a; Fulfilled res_b]
           [WFulfilled res_a; WFulfilled res_b]
           [(1%nat, WFulfilled res_b); (0%nat, WFulfilled res_a)]
           two_scripts eq_refl).
  apply perm_swap.
Defined.

Lemma ordered_pass_applies_prefix_witness :
  applied (deliver true (fun _ => false)
             (length (values [WFulfilled res_a; WFulfilled res_b]))
             (page (settle_all true
                      [(1%nat, WFulfilled res_b); (0%nat, WFulfilled res_a)]
                      (start (length [WFulfilled res_a; WFulfilled res_b])
                         two_scripts)))) =
    (applied two_scripts ++
     (el <$> resolved_prefix (values [WFulfilled res_a; WFulfilled res_b])))%list.
Proof.
  apply (ordered_pass_applies_prefix true (fun _ => false)
           [WFulfilled res_a; WFulfilled res_b]
           [(1%nat, WFulfilled res_b); (0%nat, WFulfilled res_a)] two_scripts).
  - apply perm_swap.
  - discriminate.
  - apply NoDup_ListNoDup; repeat constructor; simpl; intuition discriminate.
  - intros o Ho.
    apply elem_of_cons in Ho as [->|Ho];
      [|apply elem_of_cons in Ho as [->|Ho];
        [|apply elem_of_nil in Ho; contradiction]];
      eexists; repeat split; reflexivity.
  - reflexivity.
Defined.

(** ** Explicit invalidation *)

(** A descriptor whose key the store does not hold is fetched exactly
    once, whatever the store and the network do. *)
Lemma absent_key_is_fetched_once E db obj w :
  store w !! key obj = None ->
  count_fetches (trace (snd (Eager._getObject E db obj w))) =
    S (count_fetches (trace w)) /\
  count_fetches (trace (snd (Lazy.getObject E db obj w))) =
    S (count_fetches (trace w)).
Proof.
  intros Hs; split.
  - unfold Eager._getObject, Eager._getDBblob, Eager._fetchObject,
      Eager.deleteKey, Eager._store; simpl; rewrite Hs.
    repeat case_match; simplify_eq; count_trace.
  - unfold Lazy.getObject, Lazy.getDBblob, Lazy.get, Lazy.fetchObject,
      Lazy.set, Lazy.deleteKey; simpl; rewrite Hs.
    repeat case_match; simplify_eq; count_trace.
Qed.

(** X15. Explicit invalidation forces a refetch. After a [deleteKey] whose
    request succeeds the store no longer holds the key, and the next
    resolution of a descriptor with that key issues exactly one fetch;
    after a [clear] whose request succeeds the store is empty and the next
    resolution of any descriptor issues exactly one fetch. Without a
    connection the eager [deleteKey] and [clear] do nothing at all. *)
Theorem X15_invalidation_forces_refetch (E : Env) (obj : DBObj) (w : World) :
  tx_throws E = false ->
  (del_err E (key obj) = false ->
   (forall w1, Eager.deleteKey E true (Some (key obj)) w = Some w1 ->
      store w1 !! key obj = None /\
      count_fetches (trace (snd (Eager._getObject E true obj w1))) =
        S (count_fetches (trace w1))) /\
   (fst (Lazy.deleteKey E true (Some (key obj)) w) = Fulfilled tt /\
    store (snd (Lazy.deleteKey E true (Some (key obj)) w)) !! key obj = None /\
    count_fetches
      (trace (snd (Lazy.getObject E true obj
                     (snd (Lazy.deleteKey E true (Some (key obj)) w))))) =
      S (count_fetches
           (trace (snd (Lazy.deleteKey E true (Some (key obj)) w)))))) /\
  ((forall w1, EagerOps.clear E true false w = Some w1 ->
      store w1 = ∅ /\
      count_fetches (trace (snd (Eager._getObject E true obj w1))) =
        S (count_fetches (trace w1))) /\
   (fst (LazyOps.clear E true false w) = Fulfilled tt /\
    store (snd (LazyOps.clear E true false w)) = ∅ /\
    count_fetches
      (trace (snd (Lazy.getObject E true obj
                     (snd (LazyOps.clear E true false w))))) =
      S (count_fetches (trace (snd (LazyOps.clear E true false w)))))) /\
  (forall k fails,
     Eager.deleteKey E false k w = Some w /\
     EagerOps.clear E false fails w = Some w).
Proof.
  intros Htx; repeat split.
  - unfold Eager.deleteKey, Eager._store in H0; simpl in H0.
    rewrite Htx, H in H0; injection H0 as <-; simpl.
    apply lookup_delete_eq.
  - apply absent_key_is_fetched_once.
    unfold Eager.deleteKey, Eager._store in H0; simpl in H0.
    rewrite Htx, H in H0; injection H0 as <-; simpl.
    apply lookup_delete_eq.
  - unfold Lazy.deleteKey, Lazy.usable; simpl; rewrite Htx, H; reflexivity.
  - unfold Lazy.deleteKey, Lazy.usable; simpl; rewrite Htx, H; simpl.
    apply lookup_delete_eq.
  - apply absent_key_is_fetched_once.
    unfold Lazy.deleteKey, Lazy.usable; simpl; rewrite Htx, H; simpl.
    apply lookup_delete_eq.
  - unfold EagerOps.clear, Eager._store in H; simpl in H.
    rewrite Htx in H; injection H as <-; reflexivity.
  - apply absent_key_is_fetched_once.
    unfold EagerOps.clear, Eager._store in H; simpl in H.
    rewrite Htx in H; injection H as <-; simpl; apply lookup_empty.
  - unfold LazyOps.clear, Lazy.usable; simpl; rewrite Htx; reflexivity.
  - unfold LazyOps.clear, Lazy.usable; simpl; rewrite Htx; reflexivity.
  - apply absent_key_is_fetched_once.
    unfold LazyOps.clear, Lazy.usable; simpl; rewrite Htx; simpl.
    apply lookup_empty.
Qed.

Lemma X15_invalidation_forces_refetch_witness :
  store (snd (Lazy.deleteKey (healthy 0 (serving [1%Z])) true (Some "a")
                world_h0)) !! "a" = None /\
  store (snd (LazyOps.clear (healthy 0 (serving [1%Z])) true false world_h0))
    = ∅.
Proof.
  split.
  - exact (proj1 (proj2 (proj2 (proj1
      (X15_invalidation_forces_refetch (healthy 0 (serving [1%Z])) obj_a
         world_h0 eq_refl) eq_refl)))).
  - exact (proj1 (proj2 (proj2 (proj1 (proj2
      (X15_invalidation_forces_refetch (healthy 0 (serving [1%Z])) obj_a
         world_h0 eq_refl)))))).
Defined.

(** ** The pass without a connection *)

Lemma chain_keeps objs rest : forall n d i e,
  d !! i = Some e ->
  exists e', chain objs rest n d !! i = Some e' /\
             tagName e' = tagName e /\ url e' = url e /\
             indexed e' = indexed e.
Proof.
  induction rest as [|obj rest IH]; intros n d i e He; simpl; [eauto|].
  destruct (Nat.leb (length objs - 1) n); [apply IH; exact He|].
  destruct (alter_keeps (setHandlers (objs, n)) (el obj) i d e He)
    as (e1 & He1 & H1).
  destruct (IH (S n) _ i e1 He1) as (e2 & He2 & Ht & Hu & Hi).
  exists e2; split; [exact He2|].
  destruct H1 as [->| ->]; simpl in *; auto.
Qed.

(** X16. The eager pass without a connection. When [this.db] is unset and
    the scan yields at least one descriptor, [load] is fulfilled, reads and
    writes no store and fetches nothing (the world is untouched), applies
    nothing and starts no load; every element keeps its tag, the payload
    its [src]/[href] points to and its mark: only handlers are installed. *)
Theorem X16_eager_pass_without_connection (E : Env) (eng : EagerLoad.Engine)
  (elements : option (list nat)) (w : World) (pg : Page) :
  EagerLoad.db eng = false ->
  scan EagerLoad.isAsync_of E (EagerLoad.opt eng) elements (doc pg) <> [] ->
  exists pg1,
    EagerLoad.load E eng elements w pg = (Fulfilled tt, w, pg1) /\
    applied pg1 = applied pg /\
    loading pg1 = loading pg /\
    forall i e, doc pg !! i = Some e ->
      exists e', doc pg1 !! i = Some e' /\
                 tagName e' = tagName e /\ url e' = url e /\
                 indexed e' = indexed e.
Proof.
  intros Hdb Hne.
  unfold EagerLoad.load, EagerLoad._setupElements, EagerLoad._applyElements,
    applyElements.
  rewrite Hdb; cbn [negb].
  set (objs := scan _ E (EagerLoad.opt eng) elements (doc pg)) in *.
  destruct (objs !! 0%nat) as [o|] eqn:Ho.
  - apply list_elem_of_lookup_2, scan_fresh in Ho as [Hd _].
    rewrite Hd; cbn [d_blob emptyData applyElement orb].
    eexists; split; [reflexivity|]; cbn [applied loading doc].
    repeat split.
    intros i e He; apply chain_keeps; exact He.
  - destruct objs; [congruence|discriminate].
Qed.

Lemma X16_eager_pass_without_connection_witness :
  exists pg1,
    EagerLoad.load (healthy 0 (serving [1%Z]))
      (EagerLoad.construct eager_defaults) None empty_world two_scripts =
      (Fulfilled tt, empty_world, pg1) /\
    applied pg1 = applied two_scripts /\
    loading pg1 = loading two_scripts /\
    forall i e, doc two_scripts !! i = Some e ->
      exists e', doc pg1 !! i = Some e' /\
                 tagName e' = tagName e /\ url e' = url e /\
                 indexed e' = indexed e.
Proof.
  apply (X16_eager_pass_without_connection (healthy 0 (serving [1%Z]))
           (EagerLoad.construct eager_defaults) None empty_world two_scripts
           eq_refl).
  discriminate.
Defined.

(** ** The outcomes of a resolution *)

(** X17. The outcomes of the eager [_getObject], for every descriptor,
    store and environment: it never rejects; when it fulfils, the record
    comes from the store, from the network, or is the record without
    payload; and it stays unsettled only when a successful response has an
    unreadable body or when the stored record that has expired carries no
    key to delete. *)
Theorem X17_eager_resolution_outcomes (E : Env) (db : bool) (obj : DBObj)
  (w : World) :
  (forall e, fst (Eager._getObject E db obj w) <> Rejected e) /\
  (forall r, fst (Eager._getObject E db obj w) = Fulfilled r ->
     exists d, r = withData obj d /\ resolved_with E (store w) obj d) /\
  (fst (Eager._getObject E db obj w) = Pending ->
     net E (src obj) = FetchResp true None \/
     exists d, store w !! key obj = Some d /\ d_key d = None /\
               expired E d = true).
Proof.
  unfold Eager._getObject, Eager._getDBblob, Eager._fetchObject,
    Eager.deleteKey, Eager._store.
  repeat split; intros;
    repeat case_match; simplify_eq; simpl in *; simplify_eq;
    try congruence; eauto 6 using resolved_with.
Qed.

(** ** Payloads and the store *)

(** X19. A payload is only ever handed out together with its stored
    record: whenever resolution fulfils with a record that carries a
    payload, the store holds that very record under the key of the
    descriptor afterwards. Hence, when the store of the lazy implementation
    is unusable, every resolution fetches once and fulfils with the record
    without payload, even though the network served the asset. *)
Theorem X19_payload_only_with_stored_record (E : Env) (db : bool)
  (obj : DBObj) (w : World) :
  (forall d, fst (Eager._getObject E db obj w) = Fulfilled (withData obj d) ->
     is_Some (d_blob d) ->
     store (snd (Eager._getObject E db obj w)) !! key obj = Some d) /\
  (forall d, fst (Lazy.getObject E db obj w) = Fulfilled (withData obj d) ->
     is_Some (d_blob d) ->
     store (snd (Lazy.getObject E db obj w)) !! key obj = Some d) /\
  (Lazy.usable E db = false ->
   fst (Lazy.getObject E db obj w) =
     Fulfilled (withData obj (dataOf obj None)) /\
   store (snd (Lazy.getObject E db obj w)) = store w /\
   count_fetches (trace (snd (Lazy.getObject E db obj w))) =
     S (count_fetches (trace w))).
Proof.
  split; [|split].
  - unfold Eager._getObject, Eager._getDBblob, Eager._fetchObject,
      Eager.deleteKey, Eager._store.
    intros d; repeat case_match; simplify_eq; simpl; intros Hr Hb;
      simplify_eq; try (destruct Hb; discriminate);
      rewrite ?lookup_insert_eq; auto.
  - unfold Lazy.getObject, Lazy.getDBblob, Lazy.get, Lazy.fetchObject,
      Lazy.set, Lazy.deleteKey.
    intros d; repeat case_match; simplify_eq; simpl; intros Hr Hb;
      simplify_eq; try (destruct Hb; discriminate);
      rewrite ?lookup_insert_eq; auto.
  - intros Hu.
    unfold Lazy.getObject, Lazy.getDBblob, Lazy.get, Lazy.fetchObject,
      Lazy.set.
    rewrite Hu; simpl.
    destruct (net E (src obj)) as [|[] [b|]]; simpl;
      repeat split; count_trace.
Qed.
